(** * qtex: QIconSet and QSettingsContainer

    A shallow embedding of [QIconSet.h] and [QSettingsContainer.h] and the
    properties of the icon-sheet lookup table and of the settings container.

    Conventions of the embedding.
    - C++ [int] is a 32-bit two's complement integer, modelled as a [Z] with
      the wrap-around of every arithmetic result written out ([Int.wrap]).
    - A call either returns, fails a [Q_ASSERT] (debug builds only), throws
      out of the standard library, or runs into undefined behaviour (an
      unchecked [std::vector] subscript past the end, an integer division by
      zero): type [outcome].
    - The Qt value types the classes only pass around ([QPixmap], [QVariant])
      are parameters; [QIcon] has no comparison operator in Qt, so icons are
      told apart by how they were constructed and lookups return references. *)

From Stdlib Require Import ZArith Lia Bool.
From Stdlib Require QArith_base.
From stdpp Require Import base option list list_numbers strings gmap sorting.

Local Open Scope Z_scope.

(** ** C++ [int] *)

Module Int.

Definition INT_MIN : Z := - 2 ^ 31.
Definition INT_MAX : Z := 2 ^ 31 - 1.

Definition in_range (z : Z) : Prop := INT_MIN <= z <= INT_MAX.

(** The value an arithmetic result takes in a 32-bit [int]. *)
Definition wrap (z : Z) : Z := (z + 2 ^ 31) mod 2 ^ 32 - 2 ^ 31.

Definition add (a b : Z) : Z := wrap (a + b).
Definition mul (a b : Z) : Z := wrap (a * b).

(** [static_cast<int>(v.size())] *)
Definition of_size (n : nat) : Z := wrap (Z.of_nat n).

End Int.

(** ** Outcomes of a call *)

Inductive build : Type := Debug | Release.

Inductive outcome (A : Type) : Type :=
| Returns (a : A)
| AssertFailure      (* a Q_ASSERT failed: qFatal, the process aborts *)
| Throws             (* std::length_error out of std::vector::reserve *)
| Undefined.         (* undefined behaviour *)

Arguments Returns {A} a.
Arguments AssertFailure {A}.
Arguments Throws {A}.
Arguments Undefined {A}.

#[export] Instance outcome_bind : MBind outcome := fun A B k o =>
  match o with
  | Returns a => k a
  | AssertFailure => AssertFailure
  | Throws => Throws
  | Undefined => Undefined
  end.

(** [Q_ASSERT(cond)]: checked in a debug build, compiled out in a release
    build. *)
Definition Q_ASSERT (b : build) (cond : bool) : outcome unit :=
  match b with
  | Debug => if cond then Returns tt else AssertFailure
  | Release => Returns tt
  end.

(** [a / b] on [int]: truncating; undefined for a zero divisor and for the
    one quotient that does not fit. *)
Definition int_div (a b : Z) : outcome Z :=
  if b =? 0 then Undefined
  else if (a =? Int.INT_MIN) && (b =? -1) then Undefined
  else Returns (Z.quot a b).

(** [v.reserve(n)] with [n] an [int]: the argument converts to [size_t], so a
    negative [n] asks for more than [max_size()] and [std::length_error] is
    thrown; the contents never change. *)
Definition vector_reserve (n : Z) : outcome unit :=
  if n <? 0 then Throws else Returns tt.

(** The cells of a grid of [rows] rows of [cols] cells, row after row: what
    two nested counting loops, rows outside, append. *)
Definition grid {A : Type} (f : Z -> Z -> A) (cols rows : Z) : list A :=
  seqZ 0 rows ≫= (fun cy => (fun cx => f cx cy) <$> seqZ 0 cols).

(** ** QPoint *)

Module QPoint.

Record t : Type := Make { x : Z; y : Z }.

(** [QPoint()] *)
Definition null : t := Make 0 0.

Definition isNull (p : t) : bool := (x p =? 0) && (y p =? 0).

Definition setX (p : t) (v : Z) : t := Make v (y p).
Definition setY (p : t) (v : Z) : t := Make (x p) v.

End QPoint.

(** ** The part of QtGui the icon set uses *)

Class QtGui : Type := {
  QPixmap : Type;
  (* what a QPixmap is constructed from: the constructors' [T&& path] *)
  Source : Type;
  QPixmap_ctor : Source -> QPixmap;
  pm_isNull : QPixmap -> bool;
  pm_width : QPixmap -> Z;
  pm_height : QPixmap -> Z;
  (* QPixmap::copy(x, y, width, height) *)
  pm_copy : QPixmap -> Z -> Z -> Z -> Z -> QPixmap;
  (* width() and height() return non-negative ints *)
  pm_width_range : forall p, 0 <= pm_width p <= Int.INT_MAX;
  pm_height_range : forall p, 0 <= pm_height p <= Int.INT_MAX
}.

Section IconSet.

Context {Qt : QtGui}.

Inductive QIcon : Type :=
| QIcon_default                  (* QIcon() *)
| QIcon_pixmap (p : QPixmap).    (* QIcon(const QPixmap&) *)

Record QIconSet : Type := {
  m_iconset : QPixmap;
  m_icons : list QIcon;
  m_matrixSize : QPoint.t;
  m_iconSize : QPoint.t;
  m_invalidIcon : QIcon
}.

(** What a returned [const QIcon&] refers to. *)
Inductive icon_ref : Type :=
| ref_invalidIcon                (* m_invalidIcon *)
| ref_icons (i : nat).           (* m_icons[i] *)

Definition deref (s : QIconSet) (r : icon_ref) : option QIcon :=
  match r with
  | ref_invalidIcon => Some (m_invalidIcon s)
  | ref_icons i => m_icons s !! i
  end.

(** [m_icons[i]] with [i] an [int]: [operator[]] is unchecked and its
    argument converts to [size_t]. *)
Definition icons_at (s : QIconSet) (i : Z) : outcome icon_ref :=
  if (0 <=? i) && (i <? Z.of_nat (length (m_icons s)))
  then Returns (ref_icons (Z.to_nat i))
  else Undefined.

(** [static_cast<int>(m_icons.size())] *)
Definition icons_size (s : QIconSet) : Z := Int.of_size (length (m_icons s)).

Definition toIndex (s : QIconSet) (col row : Z) : Z :=
  Int.add (Int.mul row (QPoint.x (m_matrixSize s))) col.

Definition isValid (s : QIconSet) (index : Z) : bool :=
  index <? icons_size s.

Definition isValid_col_row (s : QIconSet) (col row : Z) : bool :=
  toIndex s col row <? icons_size s.

Definition getIcon (b : build) (s : QIconSet) (index : Z) : outcome icon_ref :=
  Q_ASSERT b (isValid s index) ;;
  if index >=? icons_size s then Returns ref_invalidIcon
  else icons_at s index.

Definition getIcon_col_row (b : build) (s : QIconSet) (col row : Z) : outcome icon_ref :=
  Q_ASSERT b (isValid_col_row s col row) ;;
  icons_at s (toIndex s col row).

Definition getIconSize (s : QIconSet) : QPoint.t := m_iconSize s.

Definition set_iconSize (s : QIconSet) (p : QPoint.t) : QIconSet :=
  {| m_iconset := m_iconset s; m_icons := m_icons s;
     m_matrixSize := m_matrixSize s; m_iconSize := p;
     m_invalidIcon := m_invalidIcon s |}.

Definition set_icons (s : QIconSet) (l : list QIcon) : QIconSet :=
  {| m_iconset := m_iconset s; m_icons := l;
     m_matrixSize := m_matrixSize s; m_iconSize := m_iconSize s;
     m_invalidIcon := m_invalidIcon s |}.

(** [for (auto i = 0; i < n; ++i) body(i)] over a state [S]. *)
Definition for_range {S : Type} (n : Z) (body : Z -> S -> S) (st : S) : S :=
  foldl (fun acc i => body i acc) st (seqZ 0 n).

(** The icon cut out for grid cell [(cx, cy)]. *)
Definition cell_icon (s : QIconSet) (cx cy : Z) : QIcon :=
  let pos_iy := Int.mul (QPoint.y (m_iconSize s)) cy in
  let pos_ix := Int.mul (QPoint.x (m_iconSize s)) cx in
  QIcon_pixmap (pm_copy (m_iconset s) pos_ix pos_iy
                  (QPoint.x (m_iconSize s)) (QPoint.y (m_iconSize s))).

(** The two nested loops of [setup]. *)
Definition extract_icons (s : QIconSet) : list QIcon :=
  for_range (QPoint.y (m_matrixSize s)) (fun cy icons =>
    for_range (QPoint.x (m_matrixSize s)) (fun cx icons =>
      icons ++ [cell_icon s cx cy]) icons) (m_icons s).

(** The auto-size block of [setup()]. The source tests [iconSize.isNull()]
    and divides by [colRow.x()], [colRow.y()]: the constructor's arguments,
    which the members [m_iconSize] and [m_matrixSize] were initialised
    from. *)
Definition resolve_iconSize (s : QIconSet) : outcome QIconSet :=
  if QPoint.isNull (m_iconSize s) then
    w ← int_div (pm_width (m_iconset s)) (QPoint.x (m_matrixSize s));
    h ← int_div (pm_height (m_iconset s)) (QPoint.y (m_matrixSize s));
    Returns (set_iconSize s (QPoint.setY (QPoint.setX (m_iconSize s) w) h))
  else Returns s.

(** [setup()] *)
Definition setup (b : build) (s : QIconSet) : outcome QIconSet :=
  if pm_isNull (m_iconset s) then
    Q_ASSERT b false ;; Returns s
  else
    s1 ← resolve_iconSize s;
    vector_reserve (Int.mul (QPoint.x (m_matrixSize s1)) (QPoint.y (m_matrixSize s1))) ;;
    Returns (set_icons s1 (extract_icons s1)).

(** [QIconSet(path, colRow, iconSize)] *)
Definition QIconSet_ctor (b : build) (path : Source) (colRow iconSize : QPoint.t)
  : outcome QIconSet :=
  setup b {| m_iconset := QPixmap_ctor path; m_icons := [];
             m_matrixSize := colRow; m_iconSize := iconSize;
             m_invalidIcon := QIcon_default |}.

(** [QIconSet(path, colRow)] *)
Definition QIconSet_ctor_auto (b : build) (path : Source) (colRow : QPoint.t)
  : outcome QIconSet :=
  QIconSet_ctor b path colRow QPoint.null.

(** [QIconSet(path, count, iconSize)] *)
Definition QIconSet_ctor_count (b : build) (path : Source) (count : Z)
    (iconSize : QPoint.t) : outcome QIconSet :=
  QIconSet_ctor b path (QPoint.Make count 1) iconSize.

(** [QIconSet(path, count)] *)
Definition QIconSet_ctor_count_auto (b : build) (path : Source) (count : Z)
  : outcome QIconSet :=
  QIconSet_ctor b path (QPoint.Make count 1) QPoint.null.

(** The queries of the public interface, all [const] member functions: a
    call hands the object back as it was. *)
Inductive query : Type :=
| Q_getIcon (index : Z)
| Q_getIcon_col_row (col row : Z)
| Q_isValid (index : Z)
| Q_isValid_col_row (col row : Z)
| Q_getIconSize.

Inductive answer : Type :=
| A_icon (r : icon_ref)
| A_bool (v : bool)
| A_point (p : QPoint.t).

Definition call (b : build) (q : query) (s : QIconSet) : outcome (answer * QIconSet) :=
  match q with
  | Q_getIcon index => r ← getIcon b s index; Returns (A_icon r, s)
  | Q_getIcon_col_row col row => r ← getIcon_col_row b s col row; Returns (A_icon r, s)
  | Q_isValid index => Returns (A_bool (isValid s index), s)
  | Q_isValid_col_row col row => Returns (A_bool (isValid_col_row s col row), s)
  | Q_getIconSize => Returns (A_point (getIconSize s), s)
  end.

(** ** Specification vocabulary *)

(** The cell size the specification gives for a loaded image: the explicit
    size, or for the null marker the floored quotients. *)
Definition resolved_size (src : QPixmap) (colRow iconSize : QPoint.t) : QPoint.t :=
  if QPoint.isNull iconSize
  then QPoint.Make (pm_width src / QPoint.x colRow) (pm_height src / QPoint.y colRow)
  else iconSize.

(** The shape of an icon set built over [src] with grid [colRow] and cell
    size [size]: the table is the grid of cells, row after row. *)
Record built (src : QPixmap) (colRow size : QPoint.t) (s : QIconSet) : Prop := {
  built_iconset : m_iconset s = src;
  built_matrixSize : m_matrixSize s = colRow;
  built_iconSize : m_iconSize s = size;
  built_invalidIcon : m_invalidIcon s = QIcon_default;
  built_icons : m_icons s = grid (cell_icon s) (QPoint.x colRow) (QPoint.y colRow)
}.

End IconSet.

(** ** A concrete pixmap type

    A sheet is known by its size and by the rectangle of the loaded image it
    shows; it is constructed from a pixmap (the constructors' [T] is then
    [QPixmap] itself). *)

Module Sheet.

Record pixmap : Type := Make {
  null : bool;
  left : Z; top : Z;
  width : Z; height : Z
}.

Definition clamp (z : Z) : Z := Z.min (Z.max 0 z) Int.INT_MAX.

Definition copy (p : pixmap) (px py w h : Z) : pixmap :=
  Make (null p) (left p + px) (top p + py) w h.

#[export] Instance qt : QtGui := {|
  QPixmap := pixmap;
  Source := pixmap;
  QPixmap_ctor := fun p => p;
  pm_isNull := null;
  pm_width := fun p => clamp (width p);
  pm_height := fun p => clamp (height p);
  pm_copy := copy;
  pm_width_range := ltac:(intros p; unfold clamp, Int.INT_MAX; lia);
  pm_height_range := ltac:(intros p; unfold clamp, Int.INT_MAX; lia)
|}.

(** A loaded [w] x [h] image, and an image that failed to load. *)
Definition image (w h : Z) : pixmap := Make false 0 0 w h.
Definition failed : pixmap := Make true 0 0 0 0.

End Sheet.

(** ** QSettingsContainer *)

Module QSettingsContainer.

Section Container.

(** [T_Key]: an integral type, [QString] or [std::string]. *)
Context {T_Key : Type} `{Countable T_Key}.
Context {QVariant : Type}.

(** [QMap<T_Key, QVariant>::contains(key)] *)
Definition QMap_contains (m : gmap T_Key QVariant) (key : T_Key) : bool :=
  match m !! key with Some _ => true | None => false end.

(** [QMap<T_Key, QVariant>::value(key, defaultValue)] *)
Definition QMap_value (m : gmap T_Key QVariant) (key : T_Key)
    (defaultValue : QVariant) : QVariant :=
  match m !! key with Some v => v | None => defaultValue end.

Record t : Type := Make {
  m_group : string;
  m_data : gmap T_Key QVariant
}.

(** [QSettingsContainer(group)] *)
Definition ctor (group : string) : t := Make group ∅.

Section Typed.

(** The requested type [T], with [QVariant(const T&)] and
    [QVariant::value<T>()]. *)
Context {T : Type}.
Variable QVariant_from : T -> QVariant.
Variable QVariant_value : QVariant -> T.

Definition value (c : t) (index : T_Key) (defaultValue : T) : T :=
  if negb (QMap_contains (m_data c) index) then defaultValue
  else QVariant_value (QMap_value (m_data c) index (QVariant_from defaultValue)).

End Typed.

Definition setValue (c : t) (key : T_Key) (value : QVariant) : t :=
  Make (m_group c) (<[key := value]> (m_data c)).

Definition contains (c : t) (key : T_Key) : bool :=
  QMap_contains (m_data c) key.

Definition getGroupName (c : t) : string := m_group c.

End Container.

Arguments t T_Key {_ _} QVariant.

End QSettingsContainer.

(** ** The rest of QSettingsContainer *)

(** The part of [QSettings] the container uses; a [QString] is a [string].
    [child_key] tells the keys that name an entry of the current group: not
    empty, without a separator. *)
Class QSettingsOps (QVariant : Type) : Type := {
  QSettings : Type;
  beginGroup : QSettings -> string -> QSettings;
  endGroup : QSettings -> QSettings;
  childKeys : QSettings -> list string;
  (* QSettings::value(key, defaultValue) *)
  QSettings_value : QSettings -> string -> QVariant -> QVariant;
  (* QSettings::setValue(key, value) *)
  QSettings_setValue : QSettings -> string -> QVariant -> QSettings;
  child_key : string -> bool;
  (* QVariant() *)
  QVariant_null : QVariant
}.

(** The states of a store inside group [g]: after [beginGroup(g)] and any
    number of [setValue]. *)
Inductive in_group {QVariant : Type} `{QSettingsOps QVariant} (g : string)
  : QSettings -> Prop :=
| in_group_begin (st : QSettings) : in_group g (beginGroup st g)
| in_group_setValue (st : QSettings) (key : string) (v : QVariant) :
    in_group g st -> in_group g (QSettings_setValue st key v).

(** What the properties of [read] and [write] take from [QSettings]: a
    written entry is read back, other entries are left alone, the child keys
    are the keys written so far, and leaving a group and entering it again
    gives the same view. *)
Class QSettingsLaws (QVariant : Type) `{QSettingsOps QVariant} : Prop := {
  value_setValue_eq : forall st key v d,
    child_key key = true ->
    QSettings_value (QSettings_setValue st key v) key d = v;
  value_setValue_ne : forall st key key' v d,
    key <> key' ->
    QSettings_value (QSettings_setValue st key v) key' d = QSettings_value st key' d;
  childKeys_setValue : forall st key v key',
    child_key key = true ->
    key' ∈ childKeys (QSettings_setValue st key v) <-> key' = key \/ key' ∈ childKeys st;
  beginGroup_endGroup : forall g st,
    in_group g st -> beginGroup (endGroup st) g = st
}.

Module QSettingsContainerRest.

Import QSettingsContainer.

Section ReadWrite.

Context {T_Key : Type} `{Countable T_Key} {QVariant : Type}.
Context {Store : QSettingsOps QVariant}.

(** [toKey<T_Key>] and [fromKey<T_Key>]: [QString::toInt] and
    [QString::number] for an integral key, the identity for a [QString],
    [toStdString] and [fromStdString] for a [std::string]. *)
Variable toKey : string -> T_Key.
Variable fromKey : T_Key -> string.

(** The order of the keys, [operator<] of [T_Key], by which a [QMap] is
    iterated. *)
Variable key_le : T_Key -> T_Key -> Prop.
Context `{forall a b, Decision (key_le a b)}.

(** The loop of [read]: [m_data[toKey(key)] = val(key)] for each key. *)
Definition read_loop (val : string -> QVariant) (data : gmap T_Key QVariant)
    (keys : list string) : gmap T_Key QVariant :=
  foldl (fun data key => <[toKey key := val key]> data) data keys.

(** [read(settings)]: the container read, and the store. *)
Definition read (c : t T_Key QVariant) (settings : QSettings)
  : t T_Key QVariant * QSettings :=
  let settings := beginGroup settings (m_group c) in
  let keys := childKeys settings in
  let data :=
    read_loop (fun key => QSettings_value settings key QVariant_null) (m_data c) keys in
  (Make (m_group c) data, endGroup settings).

(** The entries a [QMapIterator] visits, in the order of their keys. *)
Definition QMap_entries (m : gmap T_Key QVariant) : list (T_Key * QVariant) :=
  merge_sort (fun a b => key_le a.1 b.1) (map_to_list m).

(** The loop of [write]: [settings.setValue(fromKey(key), value)] for each
    entry. *)
Definition write_loop (settings : QSettings) (entries : list (T_Key * QVariant))
  : QSettings :=
  foldl (fun settings entry => QSettings_setValue settings (fromKey entry.1) entry.2)
        settings entries.

(** [write(settings)]: the store written. *)
Definition write (c : t T_Key QVariant) (settings : QSettings) : QSettings :=
  endGroup (write_loop (beginGroup settings (m_group c)) (QMap_entries (m_data c))).

End ReadWrite.

Section EnumKeys.

Context {T_Key : Type} `{Countable T_Key} {QVariant T T_Id : Type}.
Variable QVariant_from : T -> QVariant.
Variable QVariant_value : QVariant -> T.

(** [underlying]: the value of an enumerator, as a key. *)
Variable underlying : T_Id -> T_Key.

(** [value<T, T_Id>(index, defaultValue)] *)
Definition value_enum (c : t T_Key QVariant) (index : T_Id) (defaultValue : T) : T :=
  let iIndex := underlying index in
  if negb (QMap_contains (m_data c) iIndex) then defaultValue
  else QVariant_value (QMap_value (m_data c) iIndex (QVariant_from defaultValue)).

(** [setValue<KeyType>(key, value)] *)
Definition setValue_enum (c : t T_Key QVariant) (key : T_Id) (value : QVariant)
  : t T_Key QVariant :=
  Make (m_group c) (<[underlying key := value]> (m_data c)).

(** [contains<KeyType>(key)] *)
Definition contains_enum (c : t T_Key QVariant) (key : T_Id) : bool :=
  QMap_contains (m_data c) (underlying key).

End EnumKeys.

End QSettingsContainerRest.

(** ** A concrete store

    The entries of a store are told apart by the stack of groups they were
    written in and by their key; every key names an entry. The variants are
    integers. *)

Module Registry.

Record store : Type := Make {
  groups : list string;
  entries : gmap (list string * string) Z
}.

Definition empty : store := Make [] ∅.

Definition keys_of (st : store) : list string :=
  omap (fun entry : (list string * string) * Z =>
          if decide (entry.1.1 = groups st) then Some entry.1.2 else None)
       (map_to_list (entries st)).

#[export] Instance ops : QSettingsOps Z := {|
  QSettings := store;
  beginGroup := fun st g => Make (g :: groups st) (entries st);
  endGroup := fun st => Make (tail (groups st)) (entries st);
  childKeys := keys_of;
  QSettings_value := fun st key d => default d (entries st !! (groups st, key));
  QSettings_setValue := fun st key v => Make (groups st) (<[(groups st, key) := v]> (entries st));
  child_key := fun _ => true;
  QVariant_null := 0
|}.

End Registry.

(** ** A conversion for integer keys

    The number a string of decimal digits writes, and 0 for every other
    string. *)

Module Decimal.

Definition digit (a : Ascii.ascii) : option Z :=
  let n := Z.of_nat (Ascii.nat_of_ascii a) in
  if (48 <=? n) && (n <=? 57) then Some (n - 48) else None.

Fixpoint digits (acc : Z) (s : string) : option Z :=
  match s with
  | EmptyString => Some acc
  | String a s => match digit a with
                  | Some d => digits (10 * acc + d) s
                  | None => None
                  end
  end.

Definition toInt (s : string) : Z :=
  match s with
  | EmptyString => 0
  | _ => default 0 (digits 0 s)
  end.

End Decimal.

(** ** The rest of QIconSet *)

(** [a - b] on [int] *)
Definition int_sub (a b : Z) : Z := Int.wrap (a - b).

(** The [double] values the class computes with are an [int] and its half,
    both binary64 numbers: they are modelled by their exact values. A
    [double] returned as [int] is truncated toward zero. *)
Definition double_of_int (z : Z) : QArith_base.Q := QArith_base.inject_Z z.

Definition double_half : QArith_base.Q := QArith_base.Qmake 1 2.

Definition int_of_double (q : QArith_base.Q) : Z :=
  Z.quot (QArith_base.Qnum q) (Z.pos (QArith_base.Qden q)).

Section IconSetRest.

Context {Qt : QtGui}.

(** [getIconRadius()]: [m_iconSize.x() * 0.5], returned as [int]. *)
Definition getIconRadius (s : QIconSet) : Z :=
  int_of_double (QArith_base.Qmult (double_of_int (QPoint.x (m_iconSize s))) double_half).

(** [fromIndex(index)] *)
Definition fromIndex (s : QIconSet) (index : Z) : outcome QPoint.t :=
  row ← int_div index (QPoint.x (m_matrixSize s));
  let col := int_sub index (Int.mul row (QPoint.x (m_matrixSize s))) in
  Returns (QPoint.Make col row).

(** The overloads taking enumerators. [underlying] gives an enumerator's
    value; the enumeration's underlying type is [int], as the calls of the
    [int] overloads need. *)
Section Enumerated.

Context {ColType RowType : Type}.
Variable underlying_col : ColType -> Z.
Variable underlying_row : RowType -> Z.

(** [getIcon(const ColType index)] *)
Definition getIcon_enum (b : build) (s : QIconSet) (index : ColType) : outcome icon_ref :=
  Q_ASSERT b (isValid s (underlying_col index)) ;;
  getIcon b s (underlying_col index).

(** [getIcon(const ColType col, const RowType row)] *)
Definition getIcon_col_row_enum (b : build) (s : QIconSet) (col : ColType) (row : RowType)
  : outcome icon_ref :=
  Q_ASSERT b (isValid_col_row s (underlying_col col) (underlying_row row)) ;;
  getIcon_col_row b s (underlying_col col) (underlying_row row).

End Enumerated.

(** [QIconSet(QIconSet&& src)]: the new object and what is left of [src].
    The pixmap, the table and the two points are moved, the invalid icon of
    the new object is default-constructed. A moved-from [std::vector] is
    empty and a moved-from [QPoint] keeps its value; [husk] is the pixmap a
    moved-from [QPixmap] is. *)
Definition QIconSet_move (husk : QPixmap) (src : QIconSet) : QIconSet * QIconSet :=
  ({| m_iconset := m_iconset src; m_icons := m_icons src;
      m_matrixSize := m_matrixSize src; m_iconSize := m_iconSize src;
      m_invalidIcon := QIcon_default |},
   {| m_iconset := husk; m_icons := [];
      m_matrixSize := m_matrixSize src; m_iconSize := m_iconSize src;
      m_invalidIcon := m_invalidIcon src |}).

(** The answer of a query, the object dropped. *)
Definition ask (b : build) (q : query) (s : QIconSet) : outcome answer :=
  r ← call b q s; Returns r.1.

End IconSetRest.

(** * Properties *)

(** ** [int] arithmetic *)

Lemma wrap_in_range z : Int.in_range z -> Int.wrap z = z.
Proof.
  unfold Int.in_range, Int.INT_MIN, Int.INT_MAX, Int.wrap. intros Hz.
  rewrite Z.mod_small by lia. lia.
Qed.

Lemma wrap_range z : Int.in_range (Int.wrap z).
Proof.
  unfold Int.in_range, Int.INT_MIN, Int.INT_MAX, Int.wrap.
  pose proof (Z.mod_pos_bound (z + 2 ^ 31) (2 ^ 32) ltac:(lia)). lia.
Qed.

Lemma of_size_small n : Z.of_nat n <= Int.INT_MAX -> Int.of_size n = Z.of_nat n.
Proof.
  intros Hn. apply wrap_in_range. unfold Int.in_range, Int.INT_MIN. lia.
Qed.

Lemma int_div_pos a b : 0 <= a -> 0 < b -> int_div a b = Returns (a / b).
Proof.
  intros Ha Hb. unfold int_div.
  destruct (Z.eqb_spec b 0) as [->|_]; [lia|].
  destruct (Z.eqb_spec a Int.INT_MIN) as [->|_]; [unfold Int.INT_MIN in Ha; lia|].
  simpl. f_equal. apply Z.quot_div_nonneg; lia.
Qed.

Create HintDb int.
#[local] Hint Unfold Int.in_range Int.INT_MIN Int.INT_MAX : int.

Ltac int_range := autounfold with int in *; lia.
Ltac int_range_nia := autounfold with int in *; nia.

(** ** The extraction loops *)

Section Loops.

Context {A : Type}.

Lemma for_range_snoc (f : Z -> A) (n : Z) (st : list A) :
  for_range n (fun i acc => acc ++ [f i]) st = st ++ (f <$> seqZ 0 n).
Proof.
  unfold for_range. generalize (seqZ 0 n) as l. intros l. revert st.
  induction l as [|i l IH]; intros st; simpl.
  - by rewrite app_nil_r.
  - rewrite IH. by rewrite <- app_assoc.
Qed.

Lemma for_range_grid (f : Z -> Z -> A) (cols rows : Z) (st : list A) :
  for_range rows (fun cy acc => for_range cols (fun cx acc => acc ++ [f cx cy]) acc) st
  = st ++ grid f cols rows.
Proof.
  unfold grid, for_range at 1. generalize (seqZ 0 rows) as l. intros l. revert st.
  induction l as [|cy l IH]; intros st; simpl.
  - by rewrite app_nil_r.
  - rewrite IH, for_range_snoc. by rewrite <- app_assoc.
Qed.

Lemma grid_S (f : Z -> Z -> A) (cols : Z) (n : nat) :
  grid f cols (Z.of_nat (S n))
  = grid f cols (Z.of_nat n) ++ ((fun cx => f cx (Z.of_nat n)) <$> seqZ 0 cols).
Proof.
  unfold grid. rewrite seqZ_S, bind_app. simpl. by rewrite app_nil_r.
Qed.

Lemma grid_length_nat (f : Z -> Z -> A) (cols : Z) (n : nat) :
  length (grid f cols (Z.of_nat n)) = (n * Z.to_nat cols)%nat.
Proof.
  induction n as [|n IH].
  - reflexivity.
  - rewrite grid_S, length_app, IH, length_fmap, length_seqZ. lia.
Qed.

Lemma grid_length (f : Z -> Z -> A) (cols rows : Z) :
  0 <= cols -> 0 <= rows ->
  length (grid f cols rows) = Z.to_nat (cols * rows).
Proof.
  intros Hc Hr. rewrite <- (Z2Nat.id rows) at 1 by lia.
  rewrite grid_length_nat. rewrite Z2Nat.inj_mul by lia. lia.
Qed.

Lemma grid_empty (f : Z -> Z -> A) (cols rows : Z) :
  cols <= 0 \/ rows <= 0 -> grid f cols rows = [].
Proof.
  intros [Hc|Hr]; unfold grid.
  - rewrite (seqZ_nil 0 cols) by lia.
    induction (seqZ 0 rows) as [|cy l IH]; [done|]. by rewrite bind_cons, IH.
  - by rewrite (seqZ_nil 0 rows) by lia.
Qed.

Lemma grid_lookup_nat (f : Z -> Z -> A) (cols : Z) (n : nat) (i : Z) :
  0 < cols -> 0 <= i < Z.of_nat n * cols ->
  grid f cols (Z.of_nat n) !! Z.to_nat i = Some (f (i mod cols) (i / cols)).
Proof.
  intros Hc. induction n as [|n IH]; intros Hi; [lia|].
  rewrite grid_S.
  destruct (Z_lt_ge_dec i (Z.of_nat n * cols)) as [Hlt|Hge].
  - rewrite lookup_app_l by (rewrite grid_length_nat; nia).
    apply IH. lia.
  - rewrite lookup_app_r by (rewrite grid_length_nat; nia).
    rewrite grid_length_nat, list_lookup_fmap.
    assert (Hq : i / cols = Z.of_nat n)
      by (symmetry; apply (Z.div_unique i cols _ (i - Z.of_nat n * cols)); lia).
    assert (Hm : i mod cols = i - Z.of_nat n * cols)
      by (rewrite Z.mod_eq by lia; rewrite Hq; lia).
    rewrite lookup_seqZ_lt by nia. simpl. rewrite Hq, Hm. do 2 f_equal. nia.
Qed.

Lemma grid_lookup (f : Z -> Z -> A) (cols rows i : Z) :
  0 < cols -> 0 <= i < cols * rows ->
  grid f cols rows !! Z.to_nat i = Some (f (i mod cols) (i / cols)).
Proof.
  intros Hc Hi. assert (0 <= rows) by nia.
  rewrite <- (Z2Nat.id rows) by lia. apply grid_lookup_nat; [done|].
  rewrite Z2Nat.id by lia. lia.
Qed.

End Loops.

(** ** Construction *)

Section Construction.

Context {Qt : QtGui}.

Lemma extract_icons_grid (s : QIconSet) :
  extract_icons s
  = m_icons s ++ grid (cell_icon s) (QPoint.x (m_matrixSize s)) (QPoint.y (m_matrixSize s)).
Proof. unfold extract_icons. apply for_range_grid. Qed.

Lemma resolve_iconSize_pos (s : QIconSet) :
  0 < QPoint.x (m_matrixSize s) -> 0 < QPoint.y (m_matrixSize s) ->
  resolve_iconSize s
  = Returns (set_iconSize s (resolved_size (m_iconset s) (m_matrixSize s) (m_iconSize s))).
Proof.
  intros Hc Hr. unfold resolve_iconSize, resolved_size.
  destruct (QPoint.isNull (m_iconSize s)).
  - rewrite !int_div_pos by (done || apply pm_width_range || apply pm_height_range).
    reflexivity.
  - by destruct s.
Qed.

Lemma resolve_iconSize_explicit (s : QIconSet) :
  QPoint.isNull (m_iconSize s) = false -> resolve_iconSize s = Returns s.
Proof. intros Hn. unfold resolve_iconSize. by rewrite Hn. Qed.

Lemma ctor_loaded (b : build) (path : Source) (colRow iconSize : QPoint.t) :
  pm_isNull (QPixmap_ctor path) = false ->
  0 < QPoint.x colRow -> 0 < QPoint.y colRow ->
  QPoint.x colRow * QPoint.y colRow <= Int.INT_MAX ->
  exists s, QIconSet_ctor b path colRow iconSize = Returns s
            /\ built (QPixmap_ctor path) colRow
                 (resolved_size (QPixmap_ctor path) colRow iconSize) s.
Proof.
  intros Hnn Hc Hr Hfit. unfold QIconSet_ctor, setup. simpl. rewrite Hnn.
  rewrite resolve_iconSize_pos by done. simpl.
  unfold Int.mul. rewrite wrap_in_range by (int_range_nia).
  unfold vector_reserve. destruct (Z.ltb_spec (QPoint.x colRow * QPoint.y colRow) 0); [nia|].
  simpl. eexists. split; [reflexivity|].
  split; try reflexivity. simpl. by rewrite extract_icons_grid.
Qed.

Lemma ctor_failed (b : build) (path : Source) (colRow iconSize : QPoint.t) :
  pm_isNull (QPixmap_ctor path) = true ->
  QIconSet_ctor b path colRow iconSize
  = (Q_ASSERT b false ;;
     Returns {| m_iconset := QPixmap_ctor path; m_icons := [];
                m_matrixSize := colRow; m_iconSize := iconSize;
                m_invalidIcon := QIcon_default |}).
Proof. intros Hn. unfold QIconSet_ctor, setup. simpl. by rewrite Hn. Qed.

Lemma built_length src colRow size s :
  built src colRow size s -> 0 <= QPoint.x colRow -> 0 <= QPoint.y colRow ->
  length (m_icons s) = Z.to_nat (QPoint.x colRow * QPoint.y colRow).
Proof. intros Hb Hc Hr. rewrite (built_icons _ _ _ _ Hb). by apply grid_length. Qed.

Lemma built_icons_size src colRow size s :
  built src colRow size s -> 0 <= QPoint.x colRow -> 0 <= QPoint.y colRow ->
  QPoint.x colRow * QPoint.y colRow <= Int.INT_MAX ->
  icons_size s = QPoint.x colRow * QPoint.y colRow.
Proof.
  intros Hb Hc Hr Hfit. unfold icons_size.
  rewrite (built_length _ _ _ _ Hb) by done.
  rewrite of_size_small; rewrite Z2Nat.id by nia; done.
Qed.

End Construction.

(** ** Lookups *)

Lemma wrap_add_l a b : Int.wrap (Int.wrap a + b) = Int.wrap (a + b).
Proof.
  unfold Int.wrap. f_equal.
  replace ((a + 2 ^ 31) mod 2 ^ 32 - 2 ^ 31 + b + 2 ^ 31)
    with ((a + 2 ^ 31) mod 2 ^ 32 + b) by lia.
  rewrite Zplus_mod_idemp_l. f_equal. lia.
Qed.

Section Lookups.

Context {Qt : QtGui}.

Lemma toIndex_wrap (s : QIconSet) (col row : Z) :
  toIndex s col row = Int.wrap (row * QPoint.x (m_matrixSize s) + col).
Proof. unfold toIndex, Int.add, Int.mul. apply wrap_add_l. Qed.

Lemma toIndex_exact (s : QIconSet) (col row : Z) :
  Int.in_range (row * QPoint.x (m_matrixSize s) + col) ->
  toIndex s col row = row * QPoint.x (m_matrixSize s) + col.
Proof. intros Hr. rewrite toIndex_wrap. by apply wrap_in_range. Qed.

Lemma isValid_spec (s : QIconSet) (index : Z) :
  isValid s index = true <-> index < icons_size s.
Proof. unfold isValid. apply Z.ltb_lt. Qed.

Lemma isValid_col_row_spec (s : QIconSet) (col row : Z) :
  isValid_col_row s col row = true <-> toIndex s col row < icons_size s.
Proof. unfold isValid_col_row. apply Z.ltb_lt. Qed.

Lemma icons_at_inside (s : QIconSet) (i : Z) :
  0 <= i < Z.of_nat (length (m_icons s)) ->
  icons_at s i = Returns (ref_icons (Z.to_nat i)).
Proof.
  intros Hi. unfold icons_at.
  destruct (Z.leb_spec 0 i); [|lia].
  destruct (Z.ltb_spec i (Z.of_nat (length (m_icons s)))); [done|lia].
Qed.

Lemma icons_at_outside (s : QIconSet) (i : Z) :
  i < 0 \/ Z.of_nat (length (m_icons s)) <= i -> icons_at s i = Undefined.
Proof.
  intros Hi. unfold icons_at.
  destruct (Z.leb_spec 0 i); [|done].
  destruct (Z.ltb_spec i (Z.of_nat (length (m_icons s)))); [lia|done].
Qed.

Lemma icons_at_not_sentinel (s : QIconSet) (i : Z) :
  icons_at s i <> Returns ref_invalidIcon.
Proof. unfold icons_at. by destruct (_ && _). Qed.

Lemma getIcon_inside (b : build) (s : QIconSet) (i : Z) :
  0 <= i < icons_size s -> icons_size s = Z.of_nat (length (m_icons s)) ->
  getIcon b s i = Returns (ref_icons (Z.to_nat i)).
Proof.
  intros Hi Hsz. unfold getIcon, isValid.
  destruct (Z.ltb_spec i (icons_size s)); [|lia].
  destruct (Z.geb_spec i (icons_size s)); [lia|].
  rewrite icons_at_inside by lia. by destruct b.
Qed.

Lemma getIcon_col_row_inside (b : build) (s : QIconSet) (col row : Z) :
  0 <= toIndex s col row < icons_size s ->
  icons_size s = Z.of_nat (length (m_icons s)) ->
  getIcon_col_row b s col row = Returns (ref_icons (Z.to_nat (toIndex s col row))).
Proof.
  intros Hi Hsz. unfold getIcon_col_row, isValid_col_row.
  destruct (Z.ltb_spec (toIndex s col row) (icons_size s)); [|lia].
  rewrite icons_at_inside by lia. by destruct b.
Qed.

Lemma getIcon_release_sentinel (s : QIconSet) (index : Z) :
  getIcon Release s index = Returns ref_invalidIcon <-> icons_size s <= index.
Proof.
  unfold getIcon. simpl.
  destruct (Z.geb_spec index (icons_size s)) as [Hge|Hlt].
  - split; [lia|done].
  - split; [|lia]. intros Habs. by apply icons_at_not_sentinel in Habs.
Qed.

Lemma getIcon_debug_assert (s : QIconSet) (index : Z) :
  getIcon Debug s index = AssertFailure <-> icons_size s <= index.
Proof.
  unfold getIcon, isValid. simpl.
  destruct (Z.ltb_spec index (icons_size s)) as [Hlt|Hge]; simpl.
  - destruct (Z.geb_spec index (icons_size s)); [lia|].
    split; [|lia]. unfold icons_at. by destruct (_ && _).
  - split; [lia|done].
Qed.

Lemma built_lookup src colRow size s (i : Z) :
  built src colRow size s -> 0 < QPoint.x colRow ->
  0 <= i < QPoint.x colRow * QPoint.y colRow ->
  m_icons s !! Z.to_nat i
  = Some (cell_icon s (i mod QPoint.x colRow) (i / QPoint.x colRow)).
Proof. intros Hb Hc Hi. rewrite (built_icons _ _ _ _ Hb). by apply grid_lookup. Qed.

Lemma built_size_length src colRow size s :
  built src colRow size s -> 0 <= QPoint.x colRow -> 0 <= QPoint.y colRow ->
  QPoint.x colRow * QPoint.y colRow <= Int.INT_MAX ->
  icons_size s = Z.of_nat (length (m_icons s)).
Proof.
  intros Hb Hc Hr Hfit. rewrite (built_icons_size _ _ _ _ Hb) by done.
  rewrite (built_length _ _ _ _ Hb) by done. rewrite Z2Nat.id by nia. done.
Qed.

End Lookups.

(** ** The icon table *)

Section Claims.

Context {Qt : QtGui}.

(** C3. For an icon set built from a loaded image, and every coordinate
    pair with [0 <= col < columns] and [0 <= row < rows]: [toIndex] computes
    [row * columns + col], and [getIcon (row * columns + col)] and
    [getIcon (col, row)] return the same reference, the table entry of that
    index, which holds the icon cut out for cell [(col, row)]. *)
Theorem getIcon_index_coordinate_consistent
    (b : build) (path : Source) (colRow iconSize : QPoint.t) :
  pm_isNull (QPixmap_ctor path) = false ->
  0 < QPoint.x colRow -> 0 < QPoint.y colRow ->
  QPoint.x colRow * QPoint.y colRow <= Int.INT_MAX ->
  exists s, QIconSet_ctor b path colRow iconSize = Returns s /\
    forall col row, 0 <= col < QPoint.x colRow -> 0 <= row < QPoint.y colRow ->
      toIndex s col row = row * QPoint.x colRow + col /\
      getIcon b s (row * QPoint.x colRow + col) = getIcon_col_row b s col row /\
      getIcon_col_row b s col row
        = Returns (ref_icons (Z.to_nat (row * QPoint.x colRow + col))) /\
      deref s (ref_icons (Z.to_nat (row * QPoint.x colRow + col)))
        = Some (cell_icon s col row).
Proof.
  intros Hnn Hc Hr Hfit.
  destruct (ctor_loaded b path colRow iconSize Hnn Hc Hr Hfit) as (s & Hs & Hb).
  exists s. split; [done|]. intros col row Hcol Hrow.
  pose proof (built_icons_size _ _ _ _ Hb ltac:(lia) ltac:(lia) Hfit) as Hsz.
  pose proof (built_size_length _ _ _ _ Hb ltac:(lia) ltac:(lia) Hfit) as Hlen.
  assert (Hi : 0 <= row * QPoint.x colRow + col < QPoint.x colRow * QPoint.y colRow) by nia.
  assert (Hidx : toIndex s col row = row * QPoint.x colRow + col).
  { rewrite toIndex_exact; rewrite (built_matrixSize _ _ _ _ Hb); [done|int_range]. }
  split; [done|].
  rewrite getIcon_inside by (done || lia).
  rewrite getIcon_col_row_inside by (done || lia).
  rewrite Hidx. repeat split. simpl.
  rewrite (built_lookup _ _ _ _ _ Hb Hc Hi). do 2 f_equal.
  - rewrite Z.add_comm, Z.mod_add by lia. apply Z.mod_small. lia.
  - rewrite Z.add_comm, Z.div_add by lia. rewrite Z.div_small by lia. lia.
Qed.

(** C4, as the code has it. Construction from a loaded image with a positive
    grid returns an icon set of the given cell size or, in auto mode, of
    cell size [(sourceWidth / columns, sourceHeight / rows)]; its table has
    exactly [columns * rows] entries, laid out row after row (rows outside,
    columns inside); entry [i] is the icon made of the copy of the source
    rectangle of that cell size whose origin is
    [((i mod columns) * cellWidth, (i div columns) * cellHeight)], the
    products being taken in [int] (they are exact whenever they fit, and
    always in auto mode). No query changes the object; a move construction
    hands the table as it is to the new object and leaves the object moved
    from with an empty table. *)
Theorem setup_table_row_major
    (b : build) (path : Source) (colRow iconSize : QPoint.t) :
  pm_isNull (QPixmap_ctor path) = false ->
  0 < QPoint.x colRow -> 0 < QPoint.y colRow ->
  QPoint.x colRow * QPoint.y colRow <= Int.INT_MAX ->
  let columns := QPoint.x colRow in
  let rows := QPoint.y colRow in
  let size :=
    if QPoint.isNull iconSize
    then QPoint.Make (pm_width (QPixmap_ctor path) / columns)
                     (pm_height (QPixmap_ctor path) / rows)
    else iconSize in
  let cw := QPoint.x size in
  let ch := QPoint.y size in
  exists s, QIconSet_ctor b path colRow iconSize = Returns s /\
    getIconSize s = size /\
    length (m_icons s) = Z.to_nat (columns * rows) /\
    m_icons s = grid (cell_icon s) columns rows /\
    (forall cx cy,
       cell_icon s cx cy
       = QIcon_pixmap (pm_copy (QPixmap_ctor path) (Int.mul cw cx) (Int.mul ch cy) cw ch)) /\
    (forall i, 0 <= i < columns * rows ->
       m_icons s !! Z.to_nat i
       = Some (QIcon_pixmap (pm_copy (QPixmap_ctor path)
                 (Int.mul cw (i mod columns)) (Int.mul ch (i / columns)) cw ch))) /\
    (forall i, 0 <= i < columns * rows ->
       Int.in_range ((i mod columns) * cw) -> Int.in_range ((i / columns) * ch) ->
       m_icons s !! Z.to_nat i
       = Some (QIcon_pixmap (pm_copy (QPixmap_ctor path)
                 ((i mod columns) * cw) ((i / columns) * ch) cw ch))) /\
    (QPoint.isNull iconSize = true ->
     forall i, 0 <= i < columns * rows ->
       Int.in_range ((i mod columns) * cw) /\ Int.in_range ((i / columns) * ch)) /\
    (forall q a s', call b q s = Returns (a, s') -> s' = s) /\
    (forall husk,
       m_icons (QIconSet_move husk s).1 = m_icons s /\
       m_icons (QIconSet_move husk s).2 = []).
Proof.
  intros Hnn Hc Hr Hfit columns rows size cw ch.
  destruct (ctor_loaded b path colRow iconSize Hnn Hc Hr Hfit) as (s & Hs & Hb).
  exists s. split; [done|].
  assert (Hsize : getIconSize s = size) by apply (built_iconSize _ _ _ _ Hb).
  assert (Hcell : forall cx cy,
    cell_icon s cx cy
    = QIcon_pixmap (pm_copy (QPixmap_ctor path) (Int.mul cw cx) (Int.mul ch cy) cw ch)).
  { intros cx cy. unfold cell_icon. unfold getIconSize in Hsize.
    by rewrite (built_iconset _ _ _ _ Hb), Hsize. }
  assert (Hentry : forall i, 0 <= i < columns * rows ->
    m_icons s !! Z.to_nat i
    = Some (QIcon_pixmap (pm_copy (QPixmap_ctor path)
              (Int.mul cw (i mod columns)) (Int.mul ch (i / columns)) cw ch))).
  { intros i Hi. rewrite (built_lookup _ _ _ _ _ Hb Hc Hi). by rewrite Hcell. }
  split; [done|].
  split; [apply (built_length _ _ _ _ Hb); lia|].
  split; [apply (built_icons _ _ _ _ Hb)|].
  split; [done|].
  split; [done|].
  split.
  { intros i Hi Hx Hy. rewrite (Hentry i Hi). unfold Int.mul.
    rewrite (Z.mul_comm cw), (Z.mul_comm ch).
    by rewrite !wrap_in_range. }
  split.
  { intros Hauto i Hi. subst cw ch size. rewrite Hauto. simpl.
    pose proof (pm_width_range (QPixmap_ctor path)) as Hw.
    pose proof (pm_height_range (QPixmap_ctor path)) as Hh.
    pose proof (Z.mod_pos_bound i columns Hc) as Hm.
    assert (0 <= i / columns < rows) as Hq.
    { split; [apply Z.div_pos; lia|apply Z.div_lt_upper_bound; lia]. }
    pose proof (Z.mul_div_le (pm_width (QPixmap_ctor path)) columns Hc).
    pose proof (Z.mul_div_le (pm_height (QPixmap_ctor path)) rows Hr).
    assert (0 <= pm_width (QPixmap_ctor path) / columns) by (apply Z.div_pos; lia).
    assert (0 <= pm_height (QPixmap_ctor path) / rows) by (apply Z.div_pos; lia).
    split; int_range_nia. }
  split; [|done].
  intros q a s' Hq. destruct q; simpl in Hq.
  - destruct (getIcon b s index); simpl in Hq; congruence.
  - destruct (getIcon_col_row b s col row); simpl in Hq; congruence.
  - congruence.
  - congruence.
  - congruence.
Qed.

(** C5. In auto mode (the null cell size) a loaded image over a positive
    grid resolves to the cell size
    [(floor (sourceWidth / columns), floor (sourceHeight / rows))]: the
    truncated quotients, never rounded up. A 90x40 image over a 3x2 grid
    gives 30x20, and so does a 91x41 image. *)
Theorem auto_cell_size_truncates (b : build) (path : Source) (colRow : QPoint.t) :
  pm_isNull (QPixmap_ctor path) = false ->
  0 < QPoint.x colRow -> 0 < QPoint.y colRow ->
  QPoint.x colRow * QPoint.y colRow <= Int.INT_MAX ->
  let W := pm_width (QPixmap_ctor path) in
  let H := pm_height (QPixmap_ctor path) in
  exists s, QIconSet_ctor_auto b path colRow = Returns s /\
    getIconSize s = QPoint.Make (W / QPoint.x colRow) (H / QPoint.y colRow) /\
    getIconSize s = QPoint.Make (W ÷ QPoint.x colRow) (H ÷ QPoint.y colRow) /\
    QPoint.x colRow * QPoint.x (getIconSize s) <= W
      < QPoint.x colRow * (QPoint.x (getIconSize s) + 1) /\
    QPoint.y colRow * QPoint.y (getIconSize s) <= H
      < QPoint.y colRow * (QPoint.y (getIconSize s) + 1) /\
    (colRow = QPoint.Make 3 2 -> W = 90 -> H = 40 -> getIconSize s = QPoint.Make 30 20) /\
    (colRow = QPoint.Make 3 2 -> W = 91 -> H = 41 -> getIconSize s = QPoint.Make 30 20).
Proof.
  intros Hnn Hc Hr Hfit W H.
  destruct (ctor_loaded b path colRow QPoint.null Hnn Hc Hr Hfit) as (s & Hs & Hb).
  exists s. split; [done|].
  pose proof (pm_width_range (QPixmap_ctor path)) as Hw.
  pose proof (pm_height_range (QPixmap_ctor path)) as Hh.
  assert (Hsz : getIconSize s = QPoint.Make (W / QPoint.x colRow) (H / QPoint.y colRow))
    by apply (built_iconSize _ _ _ _ Hb).
  rewrite Hsz. simpl.
  split; [done|].
  split; [by rewrite !Z.quot_div_nonneg by (subst W H; lia)|].
  pose proof (Z.mul_div_le W (QPoint.x colRow) Hc).
  pose proof (Z.mul_succ_div_gt W (QPoint.x colRow) Hc).
  pose proof (Z.mul_div_le H (QPoint.y colRow) Hr).
  pose proof (Z.mul_succ_div_gt H (QPoint.y colRow) Hr).
  split; [lia|]. split; [lia|].
  split; intros -> -> ->; reflexivity.
Qed.

(** C6. When the source image failed to load, construction fails the
    assertion in a debug build; in a release build it returns an icon set
    with an empty table, on which every [getIcon index] with [0 <= index]
    returns the invalid icon (and [isValid index] is false). *)
Theorem null_source_fails_soft (path : Source) (colRow iconSize : QPoint.t) :
  pm_isNull (QPixmap_ctor path) = true ->
  QIconSet_ctor Debug path colRow iconSize = AssertFailure /\
  exists s, QIconSet_ctor Release path colRow iconSize = Returns s /\
    m_icons s = [] /\
    forall index, 0 <= index ->
      getIcon Release s index = Returns ref_invalidIcon /\ isValid s index = false.
Proof.
  intros Hn. rewrite !ctor_failed by done. split; [done|].
  eexists. split; [reflexivity|]. split; [done|]. intros index Hi.
  split.
  - apply getIcon_release_sentinel. by vm_compute.
  - unfold isValid. apply Z.ltb_ge. by vm_compute.
Qed.

End Claims.

(** ** Bounds of the lookups *)

Section Bounds.

Context {Qt : QtGui}.

Lemma getIcon_col_row_outside_release (s : QIconSet) (col row : Z) :
  Z.of_nat (length (m_icons s)) <= toIndex s col row ->
  getIcon_col_row Release s col row = Undefined.
Proof.
  intros Hge. unfold getIcon_col_row. simpl. apply icons_at_outside. by right.
Qed.

Lemma getIcon_col_row_outside_debug (s : QIconSet) (col row : Z) :
  icons_size s <= toIndex s col row ->
  getIcon_col_row Debug s col row = AssertFailure.
Proof.
  intros Hge. unfold getIcon_col_row, isValid_col_row. simpl.
  by destruct (Z.ltb_spec (toIndex s col row) (icons_size s)); [lia|].
Qed.

(** C2, as the code has it. For an icon set built from a loaded image over
    a positive grid and every index [0 <= index]: [isValid index] is true
    exactly when [index < columns * rows]; a release build's [getIcon index]
    returns the invalid icon exactly when [columns * rows <= index], and the
    table entry otherwise; the assertion of a debug build is
    [isValid index] and fails exactly when [columns * rows <= index]. In
    particular for every [index >= columns * rows] the release lookup
    returns the invalid icon and [isValid index] is false. *)
Theorem isValid_getIcon_upper_bound
    (b : build) (path : Source) (colRow iconSize : QPoint.t) :
  pm_isNull (QPixmap_ctor path) = false ->
  0 < QPoint.x colRow -> 0 < QPoint.y colRow ->
  QPoint.x colRow * QPoint.y colRow <= Int.INT_MAX ->
  exists s, QIconSet_ctor b path colRow iconSize = Returns s /\
    forall index, 0 <= index ->
      let length := QPoint.x colRow * QPoint.y colRow in
      (isValid s index = true <-> index < length) /\
      (getIcon Release s index = Returns ref_invalidIcon <-> length <= index) /\
      (index < length -> getIcon b s index = Returns (ref_icons (Z.to_nat index))) /\
      (getIcon Debug s index = AssertFailure <-> length <= index) /\
      (length <= index ->
         getIcon Release s index = Returns ref_invalidIcon /\ isValid s index = false).
Proof.
  intros Hnn Hc Hr Hfit.
  destruct (ctor_loaded b path colRow iconSize Hnn Hc Hr Hfit) as (s & Hs & Hb).
  exists s. split; [done|]. intros index Hpos. cbv zeta.
  pose proof (built_icons_size _ _ _ _ Hb ltac:(lia) ltac:(lia) Hfit) as Hsz.
  pose proof (built_size_length _ _ _ _ Hb ltac:(lia) ltac:(lia) Hfit) as Hlen.
  rewrite <- Hsz.
  split; [apply isValid_spec|].
  split; [apply getIcon_release_sentinel|].
  split; [intros Hi; apply getIcon_inside; [lia|done]|].
  split; [apply getIcon_debug_assert|].
  intros Hge. split; [by apply getIcon_release_sentinel|].
  unfold isValid. by apply Z.ltb_ge.
Qed.

(** C10. [isValid (col, row)] compares only the computed index
    [toIndex col row] with the table length. On an icon set built from a
    loaded image it is true for every pair whose [row * columns + col] is
    below [columns * rows] (and representable), whatever the single
    coordinates are. In a 3x2 grid [isValid (5, 0)] is true and
    [getIcon (5, 0)] is the entry stored for cell [(2, 1)]; with a negative
    column, [isValid (-1, 1)] is true and [getIcon (-1, 1)] is the entry of
    cell [(2, 0)]. *)
Theorem isValid_col_row_checks_index_only
    (b : build) (path : Source) (colRow iconSize : QPoint.t) :
  pm_isNull (QPixmap_ctor path) = false ->
  0 < QPoint.x colRow -> 0 < QPoint.y colRow ->
  QPoint.x colRow * QPoint.y colRow <= Int.INT_MAX ->
  exists s, QIconSet_ctor b path colRow iconSize = Returns s /\
    (forall col row,
       isValid_col_row s col row = true
       <-> toIndex s col row < QPoint.x colRow * QPoint.y colRow) /\
    (forall col row,
       Int.INT_MIN <= row * QPoint.x colRow + col ->
       row * QPoint.x colRow + col < QPoint.x colRow * QPoint.y colRow ->
       isValid_col_row s col row = true) /\
    (colRow = QPoint.Make 3 2 ->
       isValid_col_row s 5 0 = true /\
       getIcon_col_row b s 5 0 = Returns (ref_icons 5) /\
       getIcon_col_row b s 2 1 = Returns (ref_icons 5) /\
       deref s (ref_icons 5) = Some (cell_icon s 2 1) /\
       isValid_col_row s (-1) 1 = true /\
       getIcon_col_row b s (-1) 1 = getIcon_col_row b s 2 0).
Proof.
  intros Hnn Hc Hr Hfit.
  destruct (ctor_loaded b path colRow iconSize Hnn Hc Hr Hfit) as (s & Hs & Hb).
  exists s. split; [done|].
  pose proof (built_icons_size _ _ _ _ Hb ltac:(lia) ltac:(lia) Hfit) as Hsz.
  pose proof (built_size_length _ _ _ _ Hb ltac:(lia) ltac:(lia) Hfit) as Hlen.
  pose proof (built_matrixSize _ _ _ _ Hb) as Hms.
  split; [intros col row; rewrite <- Hsz; apply isValid_col_row_spec|].
  split.
  { intros col row Hlo Hhi. apply isValid_col_row_spec.
    rewrite toIndex_exact; rewrite Hms; [lia|int_range]. }
  intros ->. simpl in *.
  assert (Hidx : forall col row, 0 <= row * 3 + col < 6 ->
                   toIndex s col row = row * 3 + col).
  { intros col row Hi. rewrite toIndex_exact; rewrite Hms; simpl; [done|int_range]. }
  assert (Hget : forall col row, 0 <= row * 3 + col < 6 ->
                   getIcon_col_row b s col row
                   = Returns (ref_icons (Z.to_nat (row * 3 + col)))).
  { intros col row Hi. rewrite getIcon_col_row_inside; [|rewrite (Hidx _ _ Hi); lia|done].
    by rewrite (Hidx _ _ Hi). }
  split; [apply isValid_col_row_spec; rewrite Hidx; lia|].
  split; [by rewrite Hget by lia|].
  split; [by rewrite Hget by lia|].
  split.
  { change 5%nat with (Z.to_nat 5).
    by rewrite (built_lookup _ _ _ _ 5 Hb) by (simpl; lia). }
  split; [apply isValid_col_row_spec; rewrite Hidx; lia|].
  by rewrite !Hget by lia.
Qed.

(** C7, as the code has it. (1) Constructing from a loaded image with zero
    columns or zero rows and an explicit cell size fails no assertion: in
    both builds it returns an icon set with an empty table, on which every
    release [getIcon index] with [0 <= index] returns the invalid icon and
    [isValid index] is false. (2) In auto mode the resolved cell size has
    positive width and height whenever [1 <= columns <= sourceWidth] and
    [1 <= rows <= sourceHeight]. *)
Theorem zero_grid_and_cell_size_positivity
    (b : build) (path : Source) (colRow iconSize : QPoint.t) :
  pm_isNull (QPixmap_ctor path) = false ->
  (QPoint.isNull iconSize = false ->
   QPoint.x colRow = 0 \/ QPoint.y colRow = 0 ->
   exists s, QIconSet_ctor b path colRow iconSize = Returns s /\
     m_icons s = [] /\
     forall index, 0 <= index ->
       getIcon Release s index = Returns ref_invalidIcon /\ isValid s index = false) /\
  (1 <= QPoint.x colRow <= pm_width (QPixmap_ctor path) ->
   1 <= QPoint.y colRow <= pm_height (QPixmap_ctor path) ->
   QPoint.x colRow * QPoint.y colRow <= Int.INT_MAX ->
   exists s, QIconSet_ctor_auto b path colRow = Returns s /\
     0 < QPoint.x (getIconSize s) /\ 0 < QPoint.y (getIconSize s)).
Proof.
  intros Hnn. split.
  - intros Hexp Hzero. unfold QIconSet_ctor, setup. simpl. rewrite Hnn.
    rewrite resolve_iconSize_explicit by done. simpl.
    assert (Hprod : Int.mul (QPoint.x colRow) (QPoint.y colRow) = 0).
    { unfold Int.mul. destruct Hzero as [-> | ->];
        [rewrite Z.mul_0_l|rewrite Z.mul_0_r]; reflexivity. }
    rewrite Hprod. simpl. eexists. split; [reflexivity|].
    assert (Hempty : extract_icons
              {| m_iconset := QPixmap_ctor path; m_icons := [];
                 m_matrixSize := colRow; m_iconSize := iconSize;
                 m_invalidIcon := QIcon_default |} = []).
    { rewrite extract_icons_grid. simpl. apply grid_empty. lia. }
    simpl. split; [done|]. intros index Hi.
    assert (Hsz : forall l, l = [] -> icons_size (set_icons
              {| m_iconset := QPixmap_ctor path; m_icons := [];
                 m_matrixSize := colRow; m_iconSize := iconSize;
                 m_invalidIcon := QIcon_default |} l) = 0) by (by intros ? ->).
    split.
    + apply getIcon_release_sentinel. rewrite Hsz; done.
    + unfold isValid. apply Z.ltb_ge. rewrite Hsz; done.
  - intros Hc Hr Hfit.
    destruct (ctor_loaded b path colRow QPoint.null Hnn ltac:(lia) ltac:(lia) Hfit)
      as (s & Hs & Hb).
    exists s. split; [done|]. unfold getIconSize.
    rewrite (built_iconSize _ _ _ _ Hb). simpl.
    split; (apply Z.div_str_pos; lia).
Qed.

(** C8. The constructors taking a plain icon count are the constructors
    taking a grid, called with [QPoint (count, 1)]: they yield the same
    outcome, hence the same table, cell size and answer to every query.
    From a loaded image and a positive count the table is the single row of
    [count] cells. *)
Theorem count_ctor_is_single_row_grid
    (b : build) (path : Source) (count : Z) (iconSize : QPoint.t) :
  QIconSet_ctor_count b path count iconSize
    = QIconSet_ctor b path (QPoint.Make count 1) iconSize /\
  QIconSet_ctor_count_auto b path count
    = QIconSet_ctor_auto b path (QPoint.Make count 1) /\
  (forall q,
     (s ← QIconSet_ctor_count b path count iconSize; call b q s)
     = (s ← QIconSet_ctor b path (QPoint.Make count 1) iconSize; call b q s)) /\
  (forall q,
     (s ← QIconSet_ctor_count_auto b path count; call b q s)
     = (s ← QIconSet_ctor_auto b path (QPoint.Make count 1); call b q s)) /\
  (pm_isNull (QPixmap_ctor path) = false -> 0 < count <= Int.INT_MAX ->
   exists s, QIconSet_ctor_count b path count iconSize = Returns s /\
     length (m_icons s) = Z.to_nat count /\
     forall i, 0 <= i < count -> m_icons s !! Z.to_nat i = Some (cell_icon s i 0)).
Proof.
  split; [reflexivity|]. split; [reflexivity|].
  split; [reflexivity|]. split; [reflexivity|].
  intros Hnn Hcount. unfold QIconSet_ctor_count.
  destruct (ctor_loaded b path (QPoint.Make count 1) iconSize Hnn)
    as (s & Hs & Hb); simpl; try lia.
  exists s. split; [done|].
  split.
  - rewrite (built_length _ _ _ _ Hb); simpl; [f_equal; lia|lia|lia].
  - intros i Hi. rewrite (built_lookup _ _ _ _ i Hb); simpl; [|lia|lia].
    rewrite Z.mod_small, Z.div_small by lia. done.
Qed.

End Bounds.

(** ** The settings container *)

Section Settings.

Import QSettingsContainer.

Context {T_Key : Type} `{Countable T_Key} {QVariant T : Type}.
Variable QVariant_from : T -> QVariant.
Variable QVariant_value : QVariant -> T.

(** C9. [value (key, default)] returns the value stored for [key], read as
    the requested type, when the map holds [key], and the default
    otherwise; [contains key] tells whether the map holds [key]; after
    [setValue (key, v)] the map holds [key], with value [v]. *)
Theorem value_contains_setValue
    (c : QSettingsContainer.t T_Key QVariant) (key : T_Key) (defaultValue : T) :
  (forall v, m_data c !! key = Some v ->
             value QVariant_from QVariant_value c key defaultValue = QVariant_value v) /\
  (m_data c !! key = None ->
   value QVariant_from QVariant_value c key defaultValue = defaultValue) /\
  (contains c key = true <-> is_Some (m_data c !! key)) /\
  (forall v, contains (setValue c key v) key = true /\
             value QVariant_from QVariant_value (setValue c key v) key defaultValue
             = QVariant_value v).
Proof.
  unfold value, contains, QMap_contains, QMap_value.
  split; [by intros v ->|]. split; [by intros ->|].
  split.
  - destruct (m_data c !! key) as [v|].
    + split; [by eexists|done].
    + split; [done|by intros [? ?]].
  - intros v. simpl. by rewrite lookup_insert_eq.
Qed.

End Settings.

(** ** The lookups on a 3x2 sheet *)

Section Sheet3x2.

#[local] Existing Instance Sheet.qt.

#[local] Abbreviation sheet := (Sheet.image 90 40).
#[local] Abbreviation grid3x2 := (QPoint.Make 3 2).

Ltac side := first [reflexivity | simpl; int_range].

(** C1 at a 3x2 icon set of a loaded 90x40 image, pair [(0, 2)]: the
    computed index is 6, the table length. The linear [getIcon 6] of a
    release build returns the invalid icon; [getIcon (0, 2)] subscripts the
    table past its end in a release build, and fails its assertion in a
    debug build. It never returns the invalid icon. *)
Theorem getIcon_col_row_past_the_end :
  exists s, QIconSet_ctor Release sheet grid3x2 QPoint.null = Returns s /\
    length (m_icons s) = 6%nat /\
    toIndex s 0 2 = 6 /\
    isValid_col_row s 0 2 = false /\
    getIcon Release s 6 = Returns ref_invalidIcon /\
    getIcon_col_row Release s 0 2 = Undefined /\
    getIcon_col_row Debug s 0 2 = AssertFailure.
Proof.
  eexists. split; [reflexivity|]. repeat split.
Qed.

(** C2 fails on the code: on the 3x2 icon set a debug build's [getIcon 6]
    fails the assertion instead of returning the invalid icon, what is
    asserted being [isValid 6] and not a lower bound; and [isValid (-1)] is
    true although [-1] is not in [[0, 6)], so that [getIcon (-1)] passes the
    assertion and subscripts the table out of range. *)
Lemma isValid_accepts_negative_index :
  exists s, QIconSet_ctor Release sheet grid3x2 QPoint.null = Returns s /\
    getIcon Debug s 6 = AssertFailure /\
    isValid s (-1) = true /\
    ~ (isValid s (-1) = true <-> 0 <= -1 < 3 * 2) /\
    getIcon Release s (-1) = Undefined /\
    getIcon Debug s (-1) = Undefined.
Proof.
  eexists. split; [reflexivity|]. split; [reflexivity|]. split; [reflexivity|].
  split; [|repeat split].
  intros [Hvalid _]. specialize (Hvalid eq_refl). lia.
Qed.

(** C4 fails on the code: the table of the 3x2 icon set has six entries,
    and none once another icon set was move-constructed from it. *)
Lemma table_emptied_by_move :
  exists s, QIconSet_ctor Release sheet grid3x2 QPoint.null = Returns s /\
    length (m_icons s) = 6%nat /\
    length (m_icons (QIconSet_move Sheet.failed s).2) = 0%nat /\
    Z.of_nat (length (m_icons (QIconSet_move Sheet.failed s).2)) <> 3 * 2 /\
    length (m_icons (QIconSet_move Sheet.failed s).1) = 6%nat.
Proof.
  eexists. split; [reflexivity|]. repeat split. simpl. lia.
Qed.

(** C7 fails on the code: with zero columns and an explicit cell size a
    debug build returns normally, no assertion fails; in auto mode zero
    columns are divided by, in either build; and a 2x40 image over a 3x2
    grid resolves to a cell of width 0. *)
Lemma zero_columns_not_guarded :
  (exists s, QIconSet_ctor Debug sheet (QPoint.Make 0 2) (QPoint.Make 30 20) = Returns s) /\
  QIconSet_ctor_auto Release sheet (QPoint.Make 0 2) = Undefined /\
  QIconSet_ctor_auto Debug sheet (QPoint.Make 0 2) = Undefined /\
  (exists s, QIconSet_ctor_auto Release (Sheet.image 2 40) grid3x2 = Returns s /\
             getIconSize s = QPoint.Make 0 20 /\
             ~ (0 < QPoint.x (getIconSize s))).
Proof.
  split; [eexists; reflexivity|]. split; [reflexivity|]. split; [reflexivity|].
  eexists. split; [reflexivity|]. split; [reflexivity|]. by vm_compute.
Qed.

Lemma isValid_getIcon_upper_bound_witness :
  exists s, QIconSet_ctor Release sheet grid3x2 QPoint.null = Returns s /\
    (isValid s 6 = true <-> 6 < 3 * 2) /\
    isValid s 5 = true /\
    getIcon Release s 5 = Returns (ref_icons 5) /\
    getIcon Release s 6 = Returns ref_invalidIcon /\ isValid s 6 = false.
Proof.
  destruct (isValid_getIcon_upper_bound (Qt := Sheet.qt) Release sheet grid3x2 QPoint.null)
    as (s & Hs & Hall); [side..|].
  exists s. split; [exact Hs|].
  destruct (Hall 6) as (Hvalid & _ & _ & _ & Hge); [lia|].
  destruct (Hall 5) as (Hvalid5 & _ & Hin5 & _); [lia|].
  split; [exact Hvalid|]. split; [apply Hvalid5; simpl; lia|].
  split; [apply Hin5; simpl; lia|]. apply Hge. simpl. lia.
Defined.

Lemma getIcon_index_coordinate_consistent_witness :
  exists s, QIconSet_ctor Release sheet grid3x2 QPoint.null = Returns s /\
    getIcon Release s (1 * 3 + 2) = getIcon_col_row Release s 2 1 /\
    getIcon_col_row Release s 2 1 = Returns (ref_icons 5).
Proof.
  destruct (getIcon_index_coordinate_consistent (Qt := Sheet.qt) Release sheet grid3x2 QPoint.null)
    as (s & Hs & Hall); [side..|].
  exists s. split; [exact Hs|].
  destruct (Hall 2 1) as (_ & Heq & Hget & _); [simpl; lia..|].
  split; [exact Heq|exact Hget].
Defined.

Lemma setup_table_row_major_witness :
  exists s, QIconSet_ctor Release sheet grid3x2 QPoint.null = Returns s /\
    getIconSize s = QPoint.Make 30 20 /\
    length (m_icons s) = 6%nat /\
    m_icons s = grid (cell_icon s) 3 2 /\
    m_icons s !! 4%nat = Some (QIcon_pixmap (Sheet.Make false 30 20 30 20)) /\
    m_icons (QIconSet_move Sheet.failed s).2 = [].
Proof.
  destruct (setup_table_row_major (Qt := Sheet.qt) Release sheet grid3x2 QPoint.null)
    as (s & Hs & Hsize & Hlen & Hgrid & _ & Hentry & _ & _ & _ & Hmove); [side..|].
  exists s. split; [exact Hs|]. split; [exact Hsize|]. split; [exact Hlen|].
  split; [exact Hgrid|].
  split; [apply (Hentry 4); simpl; lia|]. apply (Hmove Sheet.failed).
Defined.

Lemma auto_cell_size_truncates_witness :
  exists s, QIconSet_ctor_auto Release (Sheet.image 91 41) grid3x2 = Returns s /\
    getIconSize s = QPoint.Make (91 / 3) (41 / 2) /\
    getIconSize s = QPoint.Make 30 20.
Proof.
  destruct (auto_cell_size_truncates (Qt := Sheet.qt) Release (Sheet.image 91 41) grid3x2)
    as (s & Hs & Hfloor & _ & _ & _ & _ & H91); [side..|].
  exists s. split; [exact Hs|]. split; [exact Hfloor|].
  apply H91; reflexivity.
Defined.

Lemma null_source_fails_soft_witness :
  QIconSet_ctor Debug Sheet.failed grid3x2 QPoint.null = AssertFailure /\
  exists s, QIconSet_ctor Release Sheet.failed grid3x2 QPoint.null = Returns s /\
    m_icons s = [] /\
    getIcon Release s 0 = Returns ref_invalidIcon /\
    getIcon Release s 7 = Returns ref_invalidIcon.
Proof.
  destruct (null_source_fails_soft (Qt := Sheet.qt) Sheet.failed grid3x2 QPoint.null)
    as (Hdebug & s & Hs & Hempty & Hall); [reflexivity|].
  split; [exact Hdebug|]. exists s. split; [exact Hs|]. split; [exact Hempty|].
  split; [apply (Hall 0)|apply (Hall 7)]; lia.
Defined.

Lemma zero_grid_and_cell_size_positivity_witness :
  (exists s, QIconSet_ctor Debug sheet (QPoint.Make 0 2) (QPoint.Make 30 20) = Returns s /\
     m_icons s = [] /\ getIcon Release s 0 = Returns ref_invalidIcon) /\
  (exists s, QIconSet_ctor_auto Release sheet grid3x2 = Returns s /\
     0 < QPoint.x (getIconSize s) /\ 0 < QPoint.y (getIconSize s)).
Proof.
  split.
  - destruct (zero_grid_and_cell_size_positivity (Qt := Sheet.qt)
                Debug sheet (QPoint.Make 0 2) (QPoint.Make 30 20)) as [Hzero _];
      [reflexivity|].
    destruct Hzero as (s & Hs & Hempty & Hall); [reflexivity|by left|].
    exists s. split; [exact Hs|]. split; [exact Hempty|]. apply (Hall 0). lia.
  - destruct (zero_grid_and_cell_size_positivity (Qt := Sheet.qt)
                Release sheet grid3x2 QPoint.null) as [_ Hpos]; [reflexivity|].
    apply Hpos; vm_compute; (split; discriminate) || discriminate.
Defined.

Lemma count_ctor_is_single_row_grid_witness :
  QIconSet_ctor_count Release (Sheet.image 100 20) 5 QPoint.null
    = QIconSet_ctor Release (Sheet.image 100 20) (QPoint.Make 5 1) QPoint.null /\
  exists s, QIconSet_ctor_count Release (Sheet.image 100 20) 5 QPoint.null = Returns s /\
    length (m_icons s) = 5%nat /\
    m_icons s !! 3%nat = Some (cell_icon s 3 0).
Proof.
  destruct (count_ctor_is_single_row_grid (Qt := Sheet.qt)
              Release (Sheet.image 100 20) 5 QPoint.null)
    as (Hsame & _ & _ & _ & Hrow).
  split; [exact Hsame|].
  destruct Hrow as (s & Hs & Hlen & Hentry); [reflexivity|int_range|].
  exists s. split; [exact Hs|]. split; [exact Hlen|].
  apply (Hentry 3). lia.
Defined.

Lemma isValid_col_row_checks_index_only_witness :
  exists s, QIconSet_ctor Release sheet grid3x2 QPoint.null = Returns s /\
    isValid_col_row s 5 0 = true /\
    getIcon_col_row Release s 5 0 = Returns (ref_icons 5) /\
    getIcon_col_row Release s 2 1 = Returns (ref_icons 5) /\
    isValid_col_row s (-1) 0 = true.
Proof.
  destruct (isValid_col_row_checks_index_only (Qt := Sheet.qt)
              Release sheet grid3x2 QPoint.null)
    as (s & Hs & _ & Hany & H3x2); [side..|].
  exists s. split; [exact Hs|].
  destruct H3x2 as (Hvalid & Hget50 & Hget21 & _); [reflexivity|].
  split; [exact Hvalid|]. split; [exact Hget50|]. split; [exact Hget21|].
  apply Hany; simpl; int_range.
Defined.

End Sheet3x2.

(** ** A settings container keyed by integers *)

Section IntSettings.

Import QSettingsContainer.

(** A container of group ["ui"] over integer keys, whose variants are
    integers read as they are, holding 10 under key 1. *)
#[local] Abbreviation ui := (setValue (ctor (T_Key := Z) (QVariant := Z) "ui") 1 10).

Lemma value_contains_setValue_witness :
  value id id ui 1 0 = 10 /\
  value id id ui 2 7 = 7 /\
  contains ui 1 = true /\
  contains (setValue ui 2 5) 2 = true /\
  value id id (setValue ui 2 5) 2 7 = 5.
Proof.
  destruct (value_contains_setValue id id ui 1 0) as (Hsome & _ & Hcontains & _).
  destruct (value_contains_setValue id id ui 2 7) as (_ & Hnone & _ & Hset).
  split; [apply (Hsome 10); reflexivity|].
  split; [apply Hnone; reflexivity|].
  split; [apply Hcontains; exists 10; reflexivity|].
  apply (Hset 5).
Defined.

End IntSettings.

(** * Further properties of QIconSet *)

Lemma wrap_add_r a b : Int.wrap (a + Int.wrap b) = Int.wrap (a + b).
Proof. rewrite Z.add_comm, wrap_add_l. f_equal. lia. Qed.

Lemma wrap_sub_r a b : Int.wrap (a - Int.wrap b) = Int.wrap (a - b).
Proof.
  unfold Int.wrap. apply (f_equal (fun z => z - 2 ^ 31)).
  replace (a - ((b + 2 ^ 31) mod 2 ^ 32 - 2 ^ 31) + 2 ^ 31)
    with ((a + 2 ^ 32) - (b + 2 ^ 31) mod 2 ^ 32) by lia.
  rewrite Zminus_mod_idemp_r.
  f_equal. lia.
Qed.

Lemma int_div_nonzero a b :
  b <> 0 -> ~ (a = Int.INT_MIN /\ b = -1) -> int_div a b = Returns (a ÷ b).
Proof.
  intros Hb Hmin. unfold int_div.
  destruct (Z.eqb_spec b 0); [done|].
  destruct (Z.eqb_spec a Int.INT_MIN), (Z.eqb_spec b (-1)); simpl; try done.
  by destruct Hmin.
Qed.

Section LookupSafety.

Context {Qt : QtGui}.

(** X2. On any icon set whose table length fits an [int], [getIcon index]
    runs into undefined behaviour exactly for a negative index, in either
    build; for [0 <= index < length] it returns the entry; for
    [length <= index] a release build returns the invalid icon and a debug
    build fails the assertion. *)
Theorem getIcon_outcomes (b : build) (s : QIconSet) (index : Z) :
  Z.of_nat (length (m_icons s)) <= Int.INT_MAX ->
  let len := Z.of_nat (length (m_icons s)) in
  (getIcon b s index = Undefined <-> index < 0) /\
  (0 <= index < len -> getIcon b s index = Returns (ref_icons (Z.to_nat index))) /\
  (len <= index -> getIcon Release s index = Returns ref_invalidIcon /\
                   getIcon Debug s index = AssertFailure).
Proof.
  intros Hfit len.
  assert (Hsz : icons_size s = len) by (by apply of_size_small).
  assert (Hneg : index < 0 -> getIcon b s index = Undefined).
  { intros Hi. unfold getIcon, isValid. rewrite Hsz.
    destruct (Z.ltb_spec index len); [|lia].
    destruct (Z.geb_spec index len); [lia|].
    rewrite icons_at_outside by lia. by destruct b. }
  assert (Hin : 0 <= index < len -> getIcon b s index = Returns (ref_icons (Z.to_nat index))).
  { intros Hi. apply getIcon_inside; lia. }
  assert (Hout : len <= index -> getIcon Release s index = Returns ref_invalidIcon /\
                                 getIcon Debug s index = AssertFailure).
  { intros Hi. split; [apply getIcon_release_sentinel|apply getIcon_debug_assert]; lia. }
  split; [|done].
  split; [|done]. intros Hu.
  destruct (Z_lt_ge_dec index 0) as [|Hge]; [done|].
  destruct (Z_lt_ge_dec index len) as [Hlt|Hge'].
  - rewrite Hin in Hu by lia. discriminate.
  - destruct (Hout ltac:(lia)) as [Hrel Hdbg]. destruct b; congruence.
Qed.

(** X3. On any icon set whose table length fits an [int], for a pair whose
    [row * columns] and [i = row * columns + col] are representable (the
    arithmetic of [toIndex] does not overflow): [getIcon (col, row)] returns
    the entry [i] when [0 <= i < length]; for a negative [i] it subscripts
    the table out of range in either build; for [length <= i] it does so in
    a release build and fails the assertion in a debug build. *)
Theorem getIcon_col_row_outcomes (b : build) (s : QIconSet) (col row : Z) :
  Z.of_nat (length (m_icons s)) <= Int.INT_MAX ->
  Int.in_range (row * QPoint.x (m_matrixSize s)) ->
  Int.in_range (row * QPoint.x (m_matrixSize s) + col) ->
  let len := Z.of_nat (length (m_icons s)) in
  let i := row * QPoint.x (m_matrixSize s) + col in
  toIndex s col row = i /\
  (0 <= i < len -> getIcon_col_row b s col row = Returns (ref_icons (Z.to_nat i))) /\
  (i < 0 -> getIcon_col_row b s col row = Undefined) /\
  (len <= i -> getIcon_col_row Release s col row = Undefined /\
               getIcon_col_row Debug s col row = AssertFailure) /\
  (getIcon_col_row Debug s col row = Undefined <-> i < 0).
Proof.
  intros Hfit _ Hsum len i.
  assert (Hto : toIndex s col row = i) by (by apply toIndex_exact).
  assert (Hsz : icons_size s = len) by (by apply of_size_small).
  assert (Hin : 0 <= i < len ->
                getIcon_col_row b s col row = Returns (ref_icons (Z.to_nat i))).
  { intros Hi. rewrite <- Hto. apply getIcon_col_row_inside; rewrite ?Hto; lia. }
  assert (Hneg : forall b', i < 0 -> getIcon_col_row b' s col row = Undefined).
  { intros b' Hi. unfold getIcon_col_row, isValid_col_row. rewrite Hto, Hsz.
    destruct (Z.ltb_spec i len); [|lia].
    rewrite icons_at_outside by lia. by destruct b'. }
  assert (Hout : len <= i -> getIcon_col_row Release s col row = Undefined /\
                             getIcon_col_row Debug s col row = AssertFailure).
  { intros Hi. split.
    - apply getIcon_col_row_outside_release. rewrite Hto. fold len. lia.
    - apply getIcon_col_row_outside_debug. rewrite Hto. lia. }
  split; [done|]. split; [done|]. split; [apply Hneg|]. split; [done|].
  split; [|apply Hneg]. intros Hu.
  destruct (Z_lt_ge_dec i 0) as [|Hge]; [done|].
  destruct (Z_lt_ge_dec i len) as [Hlt|Hge'].
  - assert (getIcon_col_row Debug s col row = Returns (ref_icons (Z.to_nat i))) as Hr.
    { rewrite <- Hto. apply getIcon_col_row_inside; rewrite ?Hto; lia. }
    congruence.
  - destruct (Hout ltac:(lia)) as [_ Hdbg]. congruence.
Qed.

(** X4. The overloads taking enumerators give the outcome of the [int]
    overloads at the enumerators' values: their own assertion changes
    nothing. *)
Theorem getIcon_enum_delegates {ColType RowType : Type}
    (underlying_col : ColType -> Z) (underlying_row : RowType -> Z)
    (b : build) (s : QIconSet) (col : ColType) (row : RowType) :
  getIcon_enum underlying_col b s col = getIcon b s (underlying_col col) /\
  getIcon_col_row_enum underlying_col underlying_row b s col row
  = getIcon_col_row b s (underlying_col col) (underlying_row row).
Proof.
  unfold getIcon_enum, getIcon_col_row_enum, getIcon, getIcon_col_row.
  split.
  - destruct b; [|done]. simpl. by destruct (isValid s (underlying_col col)).
  - destruct b; [|done]. simpl.
    by destruct (isValid_col_row s (underlying_col col) (underlying_row row)).
Qed.

End LookupSafety.

(** ** Index and coordinates *)

Section IndexCoordinates.

Context {Qt : QtGui}.

(** X5. [fromIndex] undoes [toIndex]: for [0 <= col < columns] and
    [0 <= row] whose index [row * columns + col] fits an [int],
    [fromIndex (toIndex (col, row))] is the point [(col, row)]. *)
Theorem fromIndex_toIndex (s : QIconSet) (col row : Z) :
  0 <= col < QPoint.x (m_matrixSize s) -> 0 <= row ->
  row * QPoint.x (m_matrixSize s) + col <= Int.INT_MAX ->
  fromIndex s (toIndex s col row) = Returns (QPoint.Make col row).
Proof.
  intros Hcol Hrow Hfit. set (C := QPoint.x (m_matrixSize s)) in *.
  assert (0 <= row * C) by nia.
  rewrite toIndex_exact by (fold C; int_range).
  unfold fromIndex. fold C. rewrite int_div_pos by lia. simpl.
  assert (Hq : (row * C + col) / C = row).
  { rewrite Z.add_comm, Z.div_add by lia. rewrite Z.div_small by lia. lia. }
  rewrite Hq. unfold int_sub, Int.mul. rewrite wrap_sub_r.
  rewrite wrap_in_range by int_range. do 2 f_equal. lia.
Qed.

(** X6. [toIndex] undoes [fromIndex]: for every [int] index and a column
    count that is not zero, [fromIndex index] returns a point whose
    [toIndex] is [index] again; for [0 <= index] and positive columns the
    point is [(index mod columns, index div columns)], its column within
    [[0, columns)]. With zero columns [fromIndex] divides by zero. *)
Theorem toIndex_fromIndex (s : QIconSet) (index : Z) :
  Int.in_range index ->
  let C := QPoint.x (m_matrixSize s) in
  (C = 0 -> fromIndex s index = Undefined) /\
  (C <> 0 -> ~ (index = Int.INT_MIN /\ C = -1) ->
     exists p, fromIndex s index = Returns p /\
       toIndex s (QPoint.x p) (QPoint.y p) = index /\
       (0 <= index -> 0 < C ->
          p = QPoint.Make (index mod C) (index / C) /\ 0 <= QPoint.x p < C)).
Proof.
  intros Hidx C. split.
  - intros HC. unfold fromIndex. fold C. rewrite HC. reflexivity.
  - intros HC Hmin. unfold fromIndex. fold C. rewrite int_div_nonzero by done. simpl.
    eexists. split; [reflexivity|]. unfold toIndex. simpl. fold C. split.
    + unfold int_sub, Int.add, Int.mul.
      rewrite wrap_sub_r, wrap_add_l, wrap_add_r.
      replace (index ÷ C * C + (index - index ÷ C * C)) with index by lia.
      by apply wrap_in_range.
    + intros Hpos HCpos. rewrite Z.quot_div_nonneg by lia.
      pose proof (Z.mod_pos_bound index C HCpos) as Hm.
      pose proof (Z.div_mod index C HC) as Hdm.
      pose proof (Z.mod_le index C Hpos HCpos) as Hle.
      assert (Hcol : int_sub index (Int.mul (index / C) C) = index mod C).
      { unfold int_sub, Int.mul. rewrite wrap_sub_r.
        replace (index - index / C * C) with (index mod C) by lia.
        apply wrap_in_range. int_range. }
      rewrite Hcol. split; [done|]. simpl. lia.
Qed.

(** X7. On an icon set built from a loaded image over a positive grid, every
    index [0 <= i < columns * rows] converts by [fromIndex] to coordinates
    inside the grid, the entry [i] is the icon cut out for that cell, and
    the lookup by these coordinates returns the same reference as the lookup
    by [i]. *)
Theorem fromIndex_locates_entry
    (b : build) (path : Source) (colRow iconSize : QPoint.t) :
  pm_isNull (QPixmap_ctor path) = false ->
  0 < QPoint.x colRow -> 0 < QPoint.y colRow ->
  QPoint.x colRow * QPoint.y colRow <= Int.INT_MAX ->
  exists s, QIconSet_ctor b path colRow iconSize = Returns s /\
    forall i, 0 <= i < QPoint.x colRow * QPoint.y colRow ->
      exists p, fromIndex s i = Returns p /\
        0 <= QPoint.x p < QPoint.x colRow /\ 0 <= QPoint.y p < QPoint.y colRow /\
        m_icons s !! Z.to_nat i = Some (cell_icon s (QPoint.x p) (QPoint.y p)) /\
        getIcon_col_row b s (QPoint.x p) (QPoint.y p) = getIcon b s i.
Proof.
  intros Hnn Hc Hr Hfit.
  destruct (ctor_loaded b path colRow iconSize Hnn Hc Hr Hfit) as (s & Hs & Hb).
  exists s. split; [done|]. intros i Hi.
  pose proof (built_matrixSize _ _ _ _ Hb) as Hms.
  pose proof (built_icons_size _ _ _ _ Hb ltac:(lia) ltac:(lia) Hfit) as Hsz.
  pose proof (built_size_length _ _ _ _ Hb ltac:(lia) ltac:(lia) Hfit) as Hlen.
  destruct (toIndex_fromIndex s i ltac:(int_range)) as [_ Hfrom].
  rewrite Hms in Hfrom.
  destruct Hfrom as (p & Hp & Hto & Hpos); [lia|int_range|].
  destruct Hpos as [-> Hx]; [lia..|].
  cbn [QPoint.x QPoint.y] in *.
  exists (QPoint.Make (i mod QPoint.x colRow) (i / QPoint.x colRow)).
  cbn [QPoint.x QPoint.y].
  split; [done|]. split; [done|].
  split; [split; [apply Z.div_pos; lia|apply Z.div_lt_upper_bound; lia]|].
  split; [by apply (built_lookup _ _ _ _ _ Hb)|].
  rewrite getIcon_col_row_inside; [|rewrite Hto; lia|done].
  rewrite getIcon_inside by (done || lia). by rewrite Hto.
Qed.

End IndexCoordinates.

(** ** Outcomes of construction *)

Lemma grid_length_any {A : Type} (f : Z -> Z -> A) (cols rows : Z) :
  length (grid f cols rows) = (Z.to_nat rows * Z.to_nat cols)%nat.
Proof.
  destruct (Z_le_gt_dec rows 0) as [Hr|Hr].
  - rewrite grid_empty by (by right). simpl. lia.
  - rewrite <- (Z2Nat.id rows) at 1 by lia. apply grid_length_nat.
Qed.

Section ConstructionOutcomes.

Context {Qt : QtGui}.

Lemma resolve_iconSize_nonzero (s : QIconSet) :
  QPoint.isNull (m_iconSize s) = true ->
  QPoint.x (m_matrixSize s) <> 0 -> QPoint.y (m_matrixSize s) <> 0 ->
  resolve_iconSize s
  = Returns (set_iconSize s
               (QPoint.Make (pm_width (m_iconset s) ÷ QPoint.x (m_matrixSize s))
                            (pm_height (m_iconset s) ÷ QPoint.y (m_matrixSize s)))).
Proof.
  intros Hauto Hc Hr. unfold resolve_iconSize. rewrite Hauto.
  pose proof (pm_width_range (m_iconset s)).
  pose proof (pm_height_range (m_iconset s)).
  rewrite !int_div_nonzero by (done || int_range). reflexivity.
Qed.

(** X8. From a loaded image, a grid whose cell count [columns * rows] is
    negative (one count negative, the other positive) makes the constructor
    throw, in either build and with any cell size: the count is handed to
    [std::vector::reserve]. *)
Theorem ctor_negative_grid_throws
    (b : build) (path : Source) (colRow iconSize : QPoint.t) :
  pm_isNull (QPixmap_ctor path) = false ->
  Int.INT_MIN <= QPoint.x colRow * QPoint.y colRow < 0 ->
  QIconSet_ctor b path colRow iconSize = Throws.
Proof.
  intros Hnn Hneg. unfold QIconSet_ctor, setup. simpl. rewrite Hnn.
  assert (Hthrow : vector_reserve (Int.mul (QPoint.x colRow) (QPoint.y colRow)) = Throws).
  { unfold Int.mul. rewrite wrap_in_range by int_range.
    unfold vector_reserve. by destruct (Z.ltb_spec (QPoint.x colRow * QPoint.y colRow) 0); [|lia]. }
  destruct (QPoint.isNull iconSize) eqn:Hauto.
  - rewrite resolve_iconSize_nonzero by (simpl; (done || nia)). simpl. by rewrite Hthrow.
  - rewrite resolve_iconSize_explicit by done. simpl. by rewrite Hthrow.
Qed.

(** X9. From a loaded image and a grid whose cell count is not negative and
    fits an [int], construction returns unless auto mode meets a zero count.
    The object keeps the source pixmap and the grid size as given, its
    invalid icon is the default icon, an explicit cell size is stored as
    given and an automatic one is the pair of truncated quotients; the table
    has [max columns 0 * max rows 0] entries, the grid's cells row after
    row. *)
Theorem ctor_returned_object
    (b : build) (path : Source) (colRow iconSize : QPoint.t) :
  pm_isNull (QPixmap_ctor path) = false ->
  0 <= QPoint.x colRow * QPoint.y colRow <= Int.INT_MAX ->
  (QPoint.isNull iconSize = true -> QPoint.x colRow <> 0 /\ QPoint.y colRow <> 0) ->
  exists s, QIconSet_ctor b path colRow iconSize = Returns s /\
    m_iconset s = QPixmap_ctor path /\
    m_matrixSize s = colRow /\
    m_invalidIcon s = QIcon_default /\
    (QPoint.isNull iconSize = false -> m_iconSize s = iconSize) /\
    (QPoint.isNull iconSize = true ->
       m_iconSize s = QPoint.Make (pm_width (QPixmap_ctor path) ÷ QPoint.x colRow)
                                  (pm_height (QPixmap_ctor path) ÷ QPoint.y colRow)) /\
    m_icons s = grid (cell_icon s) (QPoint.x colRow) (QPoint.y colRow) /\
    length (m_icons s)
    = (Z.to_nat (Z.max (QPoint.x colRow) 0) * Z.to_nat (Z.max (QPoint.y colRow) 0))%nat.
Proof.
  intros Hnn Hprod Hzero. unfold QIconSet_ctor, setup. simpl. rewrite Hnn.
  assert (Hres : vector_reserve (Int.mul (QPoint.x colRow) (QPoint.y colRow)) = Returns tt).
  { unfold Int.mul. rewrite wrap_in_range by int_range.
    unfold vector_reserve. by destruct (Z.ltb_spec (QPoint.x colRow * QPoint.y colRow) 0); [lia|]. }
  assert (Hlen : forall f : Z -> Z -> QIcon,
            length (grid f (QPoint.x colRow) (QPoint.y colRow))
            = (Z.to_nat (Z.max (QPoint.x colRow) 0) * Z.to_nat (Z.max (QPoint.y colRow) 0))%nat).
  { intros f. rewrite grid_length_any. lia. }
  destruct (QPoint.isNull iconSize) eqn:Hauto.
  - destruct (Hzero eq_refl) as [Hc Hr].
    rewrite resolve_iconSize_nonzero by done. simpl. rewrite Hres. simpl.
    eexists. split; [reflexivity|]. simpl. rewrite extract_icons_grid. simpl.
    repeat split; try done; try apply Hlen; congruence.
  - rewrite resolve_iconSize_explicit by done. simpl. rewrite Hres. simpl.
    eexists. split; [reflexivity|]. simpl. rewrite extract_icons_grid. simpl.
    repeat split; try done; try apply Hlen; congruence.
Qed.

(** X10. In auto mode, from a loaded image over a positive grid, every cell
    [(cx, cy)] of the grid is cut at origin [(cx * cellWidth, cy *
    cellHeight)], computed without overflow, and its rectangle lies inside
    the source image; the cells of a row (of a column) follow one another
    without overlap; the pixels left uncovered at the right are fewer than
    [columns], those at the bottom fewer than [rows]. *)
Theorem auto_cells_inside_image (b : build) (path : Source) (colRow : QPoint.t) :
  pm_isNull (QPixmap_ctor path) = false ->
  0 < QPoint.x colRow -> 0 < QPoint.y colRow ->
  QPoint.x colRow * QPoint.y colRow <= Int.INT_MAX ->
  let W := pm_width (QPixmap_ctor path) in
  let H := pm_height (QPixmap_ctor path) in
  exists s, QIconSet_ctor_auto b path colRow = Returns s /\
    let cw := QPoint.x (getIconSize s) in
    let ch := QPoint.y (getIconSize s) in
    (forall cx cy, 0 <= cx < QPoint.x colRow -> 0 <= cy < QPoint.y colRow ->
       cell_icon s cx cy
       = QIcon_pixmap (pm_copy (QPixmap_ctor path) (cx * cw) (cy * ch) cw ch) /\
       0 <= cx * cw /\ cx * cw + cw <= W /\
       0 <= cy * ch /\ cy * ch + ch <= H) /\
    (forall c c', 0 <= c < c' -> c * cw + cw <= c' * cw /\ c * ch + ch <= c' * ch) /\
    0 <= W - QPoint.x colRow * cw < QPoint.x colRow /\
    0 <= H - QPoint.y colRow * ch < QPoint.y colRow.
Proof.
  intros Hnn Hc Hr Hfit W H.
  destruct (ctor_loaded b path colRow QPoint.null Hnn Hc Hr Hfit) as (s & Hs & Hb).
  exists s. split; [done|]. cbv zeta.
  pose proof (pm_width_range (QPixmap_ctor path)) as Hw.
  pose proof (pm_height_range (QPixmap_ctor path)) as Hh.
  assert (Hsz : getIconSize s = QPoint.Make (W / QPoint.x colRow) (H / QPoint.y colRow))
    by apply (built_iconSize _ _ _ _ Hb).
  rewrite Hsz. cbn [QPoint.x QPoint.y].
  pose proof (Z.mul_div_le W (QPoint.x colRow) Hc).
  pose proof (Z.mul_succ_div_gt W (QPoint.x colRow) Hc).
  pose proof (Z.mul_div_le H (QPoint.y colRow) Hr).
  pose proof (Z.mul_succ_div_gt H (QPoint.y colRow) Hr).
  assert (0 <= W / QPoint.x colRow) by (apply Z.div_pos; subst W; lia).
  assert (0 <= H / QPoint.y colRow) by (apply Z.div_pos; subst H; lia).
  split.
  { intros cx cy Hcx Hcy.
    assert (Hx : 0 <= cx * (W / QPoint.x colRow) /\
                 cx * (W / QPoint.x colRow) + W / QPoint.x colRow <= W) by nia.
    assert (Hy : 0 <= cy * (H / QPoint.y colRow) /\
                 cy * (H / QPoint.y colRow) + H / QPoint.y colRow <= H) by nia.
    split; [|lia].
    unfold cell_icon. rewrite (built_iconset _ _ _ _ Hb).
    unfold getIconSize in Hsz. rewrite Hsz. cbn [QPoint.x QPoint.y].
    unfold Int.mul. rewrite !wrap_in_range by (subst W H; int_range).
    do 2 f_equal; lia. }
  split; [intros c c' Hcc; nia|]. lia.
Qed.

End ConstructionOutcomes.

(** ** Move construction and the radius *)

Section MoveAndRadius.

Context {Qt : QtGui}.

(** X11. The object move-constructed from an icon set answers every query
    as the source did before the move, in either build, and its table
    entries are the source's; its invalid icon is the default icon. *)
Theorem move_keeps_answers (husk : QPixmap) (src : QIconSet) (b : build) (q : query) :
  ask b q (QIconSet_move husk src).1 = ask b q src /\
  (forall i, deref (QIconSet_move husk src).1 (ref_icons i) = deref src (ref_icons i)) /\
  deref (QIconSet_move husk src).1 ref_invalidIcon = Some QIcon_default.
Proof.
  split; [|done]. unfold ask, call. destruct q; try reflexivity.
  - change (getIcon b (QIconSet_move husk src).1 index) with (getIcon b src index).
    by destruct (getIcon b src index).
  - change (getIcon_col_row b (QIconSet_move husk src).1 col row)
      with (getIcon_col_row b src col row).
    by destruct (getIcon_col_row b src col row).
Qed.

(** X12. The icon set moved from is left with an empty table: for every
    [0 <= index], [isValid index] is false and [getIcon index] returns the
    invalid icon in a release build (fails the assertion in a debug build);
    [getIcon (col, row)] is undefined behaviour in a release build for every
    pair, and for a pair of non-negative index [isValid (col, row)] is false
    and a debug build fails the assertion. *)
Theorem moved_from_is_empty (husk : QPixmap) (src : QIconSet) :
  let left := (QIconSet_move husk src).2 in
  m_icons left = [] /\
  (forall index, 0 <= index ->
     isValid left index = false /\
     getIcon Release left index = Returns ref_invalidIcon /\
     getIcon Debug left index = AssertFailure) /\
  (forall col row,
     getIcon_col_row Release left col row = Undefined /\
     (0 <= toIndex src col row ->
        isValid_col_row left col row = false /\
        getIcon_col_row Debug left col row = AssertFailure)).
Proof.
  cbv zeta. split; [done|].
  assert (Hsz : icons_size (QIconSet_move husk src).2 = 0) by reflexivity.
  split.
  - intros index Hi.
    split; [unfold isValid; rewrite Hsz; by apply Z.ltb_ge|].
    split; [apply getIcon_release_sentinel|apply getIcon_debug_assert]; lia.
  - intros col row. split.
    + unfold getIcon_col_row. simpl. apply icons_at_outside. simpl.
      destruct (Z_lt_ge_dec (toIndex (QIconSet_move husk src).2 col row) 0); lia.
    + intros Hi.
      assert (Hto : toIndex (QIconSet_move husk src).2 col row = toIndex src col row)
        by reflexivity.
      split.
      * unfold isValid_col_row. rewrite Hsz, Hto. by apply Z.ltb_ge.
      * apply getIcon_col_row_outside_debug. rewrite Hsz, Hto. done.
Qed.

(** X13. [getIconRadius] is half the cell width, truncated toward zero: for
    a width [w >= 0] the radius [r] has [2 * r <= w <= 2 * r + 1], for
    [w <= 0] it has [2 * r - 1 <= w <= 2 * r]. *)
Theorem getIconRadius_halves (s : QIconSet) :
  let w := QPoint.x (m_iconSize s) in
  getIconRadius s = w ÷ 2 /\
  (0 <= w -> 2 * getIconRadius s <= w <= 2 * getIconRadius s + 1) /\
  (w <= 0 -> 2 * getIconRadius s - 1 <= w <= 2 * getIconRadius s).
Proof.
  intros w.
  assert (Hr : getIconRadius s = w ÷ 2).
  { unfold getIconRadius, int_of_double, double_of_int, double_half. simpl.
    fold w. by rewrite Z.mul_1_r. }
  rewrite Hr. split; [done|].
  pose proof (Z.quot_rem' w 2) as Hqr.
  split; intros Hw.
  - pose proof (Z.rem_bound_pos w 2 Hw ltac:(lia)). lia.
  - pose proof (Z.rem_bound_pos (- w) 2 ltac:(lia) ltac:(lia)) as Hb'.
    rewrite Z.rem_opp_l' in Hb'. lia.
Qed.

End MoveAndRadius.

(** ** The further properties on concrete sheets *)

Section SheetExamples.

#[local] Existing Instance Sheet.qt.

#[local] Abbreviation sheet := (Sheet.image 90 40).

(** An icon set of two 45x40 icons in one row, and a 3x2 icon set with
    41x20 cells whose table was moved away. *)
#[local] Abbreviation pair_set :=
  (@Build_QIconSet Sheet.qt sheet
     [@QIcon_pixmap Sheet.qt (Sheet.Make false 0 0 45 40);
      @QIcon_pixmap Sheet.qt (Sheet.Make false 45 0 45 40)]
     (QPoint.Make 2 1) (QPoint.Make 45 40) QIcon_default).

#[local] Abbreviation grid_set :=
  (@Build_QIconSet Sheet.qt sheet [] (QPoint.Make 3 2) (QPoint.Make 41 20) QIcon_default).

Ltac closed_side := first [reflexivity | simpl; int_range | vm_compute; done].

Lemma getIcon_outcomes_witness :
  getIcon Release pair_set (-1) = Undefined /\
  getIcon Release pair_set 1 = Returns (ref_icons 1) /\
  getIcon Release pair_set 2 = Returns ref_invalidIcon /\
  getIcon Debug pair_set 2 = AssertFailure.
Proof.
  destruct (getIcon_outcomes (Qt := Sheet.qt) Release pair_set (-1)) as ([_ Hneg] & _);
    [closed_side|].
  destruct (getIcon_outcomes (Qt := Sheet.qt) Release pair_set 1) as (_ & Hin & _);
    [closed_side|].
  destruct (getIcon_outcomes (Qt := Sheet.qt) Release pair_set 2) as (_ & _ & Hout);
    [closed_side|].
  split; [apply Hneg; lia|]. split; [apply Hin; simpl; lia|]. apply Hout. simpl. lia.
Defined.

Lemma getIcon_col_row_outcomes_witness :
  getIcon_col_row Release pair_set 1 0 = Returns (ref_icons 1) /\
  getIcon_col_row Release pair_set 0 1 = Undefined /\
  getIcon_col_row Debug pair_set 0 1 = AssertFailure /\
  getIcon_col_row Debug pair_set (-1) 0 = Undefined.
Proof.
  destruct (getIcon_col_row_outcomes (Qt := Sheet.qt) Release pair_set 1 0)
    as (_ & Hin & _); [closed_side..|].
  destruct (getIcon_col_row_outcomes (Qt := Sheet.qt) Release pair_set 0 1)
    as (_ & _ & _ & Hout & _); [closed_side..|].
  destruct (getIcon_col_row_outcomes (Qt := Sheet.qt) Debug pair_set (-1) 0)
    as (_ & _ & Hneg & _); [closed_side..|].
  split; [apply Hin; vm_compute; done|].
  destruct Hout as [Hrel Hdbg]; [vm_compute; done|].
  split; [exact Hrel|]. split; [exact Hdbg|]. apply Hneg. reflexivity.
Defined.

Lemma fromIndex_toIndex_witness :
  fromIndex grid_set (toIndex grid_set 2 1) = Returns (QPoint.Make 2 1).
Proof.
  apply (fromIndex_toIndex (Qt := Sheet.qt) grid_set 2 1); closed_side.
Defined.

Lemma toIndex_fromIndex_witness :
  exists p, fromIndex grid_set 4 = Returns p /\
    toIndex grid_set (QPoint.x p) (QPoint.y p) = 4 /\ p = QPoint.Make 1 1.
Proof.
  destruct (toIndex_fromIndex (Qt := Sheet.qt) grid_set 4) as [_ Hfrom]; [closed_side|].
  destruct Hfrom as (p & Hp & Hto & Hpos); [closed_side|vm_compute; by intros [? _]|].
  exists p. split; [exact Hp|]. split; [exact Hto|].
  destruct Hpos as [Hpoint _]; [closed_side..|]. exact Hpoint.
Defined.

Lemma fromIndex_locates_entry_witness :
  exists s, QIconSet_ctor Release sheet (QPoint.Make 3 2) QPoint.null = Returns s /\
    exists p, fromIndex s 4 = Returns p /\
      m_icons s !! 4%nat = Some (cell_icon s (QPoint.x p) (QPoint.y p)) /\
      getIcon_col_row Release s (QPoint.x p) (QPoint.y p) = getIcon Release s 4.
Proof.
  destruct (fromIndex_locates_entry (Qt := Sheet.qt)
              Release sheet (QPoint.Make 3 2) QPoint.null) as (s & Hs & Hall);
    [closed_side..|].
  exists s. split; [exact Hs|].
  destruct (Hall 4) as (p & Hp & _ & _ & Hentry & Hsame); [simpl; lia|].
  exists p. split; [exact Hp|]. split; [exact Hentry|exact Hsame].
Defined.

Lemma ctor_negative_grid_throws_witness :
  QIconSet_ctor Release sheet (QPoint.Make (-3) 2) (QPoint.Make 30 20) = Throws /\
  QIconSet_ctor_auto Debug sheet (QPoint.Make 3 (-2)) = Throws.
Proof.
  split.
  - apply (ctor_negative_grid_throws (Qt := Sheet.qt)); closed_side.
  - apply (ctor_negative_grid_throws (Qt := Sheet.qt)); closed_side.
Defined.

Lemma ctor_returned_object_witness :
  exists s, QIconSet_ctor Release sheet (QPoint.Make (-3) (-2)) (QPoint.Make 30 20)
            = Returns s /\
    m_matrixSize s = QPoint.Make (-3) (-2) /\
    m_iconSize s = QPoint.Make 30 20 /\
    length (m_icons s) = 0%nat.
Proof.
  destruct (ctor_returned_object (Qt := Sheet.qt)
              Release sheet (QPoint.Make (-3) (-2)) (QPoint.Make 30 20))
    as (s & Hs & _ & Hgrid & _ & Hsize & _ & _ & Hlen);
    [closed_side|closed_side|discriminate|].
  exists s. split; [exact Hs|]. split; [exact Hgrid|].
  split; [apply Hsize; reflexivity|exact Hlen].
Defined.

Lemma auto_cells_inside_image_witness :
  exists s, QIconSet_ctor_auto Release (Sheet.image 91 41) (QPoint.Make 3 2) = Returns s /\
    2 * QPoint.x (getIconSize s) + QPoint.x (getIconSize s) <= 91 /\
    0 <= 91 - 3 * QPoint.x (getIconSize s) < 3.
Proof.
  destruct (auto_cells_inside_image (Qt := Sheet.qt)
              Release (Sheet.image 91 41) (QPoint.Make 3 2))
    as (s & Hs & Hcells & _ & Hleft & _); [closed_side..|].
  exists s. split; [exact Hs|].
  destruct (Hcells 2 1) as (_ & _ & Hinside & _); [simpl; lia..|].
  split; [exact Hinside|exact Hleft].
Defined.

Lemma moved_from_is_empty_witness :
  getIcon Release (QIconSet_move Sheet.failed pair_set).2 0 = Returns ref_invalidIcon /\
  getIcon_col_row Release (QIconSet_move Sheet.failed pair_set).2 1 0 = Undefined /\
  getIcon_col_row Debug (QIconSet_move Sheet.failed pair_set).2 1 0 = AssertFailure.
Proof.
  destruct (moved_from_is_empty (Qt := Sheet.qt) Sheet.failed pair_set)
    as (_ & Hindex & Hpair).
  destruct (Hindex 0) as (_ & Hrel & _); [lia|].
  destruct (Hpair 1 0) as (Hundef & Hdbg).
  split; [exact Hrel|]. split; [exact Hundef|]. apply Hdbg. vm_compute. done.
Defined.

Lemma getIconRadius_halves_witness :
  getIconRadius grid_set = 20 /\
  2 * getIconRadius grid_set <= 41 <= 2 * getIconRadius grid_set + 1.
Proof.
  destruct (getIconRadius_halves (Qt := Sheet.qt) grid_set) as (_ & Hpos & _).
  split; [reflexivity|]. apply Hpos. simpl. lia.
Defined.

End SheetExamples.

(** * Further properties of QSettingsContainer *)

Section SettingsMap.

Import QSettingsContainer.

Context {T_Key : Type} `{Countable T_Key} {QVariant T : Type}.
Variable QVariant_from : T -> QVariant.
Variable QVariant_value : QVariant -> T.

(** X14. [setValue (key, v)] touches the entry of [key] only: for another
    key, [contains] and [value] answer as before, and the group name is
    kept. *)
Theorem setValue_other_keys
    (c : QSettingsContainer.t T_Key QVariant) (key key' : T_Key) (v : QVariant)
    (defaultValue : T) :
  key <> key' ->
  contains (setValue c key v) key' = contains c key' /\
  value QVariant_from QVariant_value (setValue c key v) key' defaultValue
  = value QVariant_from QVariant_value c key' defaultValue /\
  getGroupName (setValue c key v) = getGroupName c.
Proof.
  intros Hne. unfold contains, value, QMap_contains, QMap_value, setValue. simpl.
  by rewrite lookup_insert_ne.
Qed.

(** X15. Of two [setValue] on one key the later one stands; [setValue] on
    two different keys give the same container in either order; storing the
    value a key already has changes nothing. *)
Theorem setValue_overwrites_and_commutes
    (c : QSettingsContainer.t T_Key QVariant) (key key' : T_Key) (v v' : QVariant) :
  setValue (setValue c key v) key v' = setValue c key v' /\
  (key <> key' ->
   setValue (setValue c key v) key' v' = setValue (setValue c key' v') key v) /\
  (m_data c !! key = Some v -> setValue c key v = c).
Proof.
  unfold setValue. simpl. split; [by rewrite insert_insert_eq|].
  split.
  - intros Hne. f_equal. by apply insert_insert_ne.
  - intros Hv. rewrite insert_id by done. by destruct c.
Qed.

End SettingsMap.

Section SettingsEnum.

Import QSettingsContainer QSettingsContainerRest.

Context {T_Key : Type} `{Countable T_Key} {QVariant T T_Id : Type}.
Variable QVariant_from : T -> QVariant.
Variable QVariant_value : QVariant -> T.
Variable underlying : T_Id -> T_Key.

(** X16. The overloads taking an enumerator work on the entry of the
    enumerator's value: what [setValue] stored under an enumerator is
    contained and read back under every enumerator of the same value and
    under that value as a key, and an enumerator of another value still
    reads what it read before. *)
Theorem enum_overloads_share_entries
    (c : QSettingsContainer.t T_Key QVariant) (e e' : T_Id) (v : QVariant)
    (defaultValue : T) :
  (underlying e' = underlying e ->
   contains_enum underlying (setValue_enum underlying c e v) e' = true /\
   value_enum QVariant_from QVariant_value underlying
     (setValue_enum underlying c e v) e' defaultValue = QVariant_value v /\
   value QVariant_from QVariant_value
     (setValue_enum underlying c e v) (underlying e') defaultValue = QVariant_value v) /\
  (underlying e' <> underlying e ->
   contains_enum underlying (setValue_enum underlying c e v) e'
   = contains_enum underlying c e' /\
   value_enum QVariant_from QVariant_value underlying
     (setValue_enum underlying c e v) e' defaultValue
   = value_enum QVariant_from QVariant_value underlying c e' defaultValue).
Proof.
  unfold contains_enum, value_enum, value, setValue_enum, QMap_contains, QMap_value.
  simpl. split.
  - intros ->. by rewrite lookup_insert_eq.
  - intros Hne. by rewrite lookup_insert_ne.
Qed.

End SettingsEnum.

(** ** Reading and writing a store *)

Section SettingsReadWrite.

Import QSettingsContainer QSettingsContainerRest.

Context {T_Key : Type} `{Countable T_Key} {QVariant : Type}.
Context {Store : QSettingsOps QVariant}.
Variable toKey : string -> T_Key.
Variable fromKey : T_Key -> string.
Variable key_le : T_Key -> T_Key -> Prop.
Context `{forall a b, Decision (key_le a b)}.

Lemma read_loop_snoc (val : string -> QVariant) (data : gmap T_Key QVariant) keys key :
  read_loop toKey val data (keys ++ [key])
  = <[toKey key := val key]> (read_loop toKey val data keys).
Proof. unfold read_loop. by rewrite foldl_snoc. Qed.

Lemma read_loop_miss (val : string -> QVariant) (data : gmap T_Key QVariant) keys k :
  (forall key, key ∈ keys -> toKey key <> k) ->
  read_loop toKey val data keys !! k = data !! k.
Proof.
  induction keys as [|key keys IH] using rev_ind; intros Hmiss; [done|].
  rewrite read_loop_snoc, lookup_insert_ne.
  - apply IH. intros key' Hin. apply Hmiss. apply elem_of_app. by left.
  - apply Hmiss. apply elem_of_app. right. by apply list_elem_of_singleton.
Qed.

Lemma read_loop_last (val : string -> QVariant) (data : gmap T_Key QVariant) keys1 key keys2 :
  (forall key', key' ∈ keys2 -> toKey key' <> toKey key) ->
  read_loop toKey val data (keys1 ++ key :: keys2) !! toKey key = Some (val key).
Proof.
  intros Hlast. unfold read_loop. rewrite foldl_app. simpl.
  fold (read_loop toKey val (<[toKey key:=val key]> (foldl (fun data key0 => <[toKey key0:=val key0]> data) data keys1)) keys2).
  rewrite read_loop_miss by done. by rewrite lookup_insert_eq.
Qed.

Lemma read_loop_hit (val : string -> QVariant) (data : gmap T_Key QVariant) keys k v :
  (exists key, key ∈ keys /\ toKey key = k) ->
  (forall key, key ∈ keys -> toKey key = k -> val key = v) ->
  read_loop toKey val data keys !! k = Some v.
Proof.
  induction keys as [|key keys IH] using rev_ind; intros Hex Hval.
  - destruct Hex as (key & Hin & _). by apply elem_of_nil in Hin.
  - rewrite read_loop_snoc. destruct (decide (toKey key = k)) as [Heq|Hne].
    + rewrite Heq, lookup_insert_eq. f_equal.
      apply Hval; [apply elem_of_app; right; by apply list_elem_of_singleton|done].
    + rewrite lookup_insert_ne by done. apply IH.
      * destruct Hex as (key' & Hin & Hk). exists key'. split; [|done].
        apply elem_of_app in Hin as [Hin|Hin]; [done|].
        apply list_elem_of_singleton in Hin. congruence.
      * intros key' Hin. apply Hval. apply elem_of_app. by left.
Qed.

Lemma read_loop_contains (val : string -> QVariant) (data : gmap T_Key QVariant) keys key :
  key ∈ keys -> is_Some (read_loop toKey val data keys !! toKey key).
Proof.
  induction keys as [|key' keys IH] using rev_ind; intros Hin.
  - by apply elem_of_nil in Hin.
  - rewrite read_loop_snoc. destruct (decide (toKey key' = toKey key)) as [->|Hne].
    + rewrite lookup_insert_eq. by eexists.
    + rewrite lookup_insert_ne by done. apply IH.
      apply elem_of_app in Hin as [Hin|Hin]; [done|].
      apply list_elem_of_singleton in Hin. congruence.
Qed.

Lemma read_loop_origin (val : string -> QVariant) (data : gmap T_Key QVariant) keys k v :
  read_loop toKey val data keys !! k = Some v ->
  data !! k = Some v \/ exists key, key ∈ keys /\ toKey key = k /\ v = val key.
Proof.
  induction keys as [|key keys IH] using rev_ind; [by left|].
  rewrite read_loop_snoc. destruct (decide (toKey key = k)) as [Heq|Hne].
  - rewrite Heq, lookup_insert_eq. intros [= <-]. right. exists key.
    split; [apply elem_of_app; right; by apply list_elem_of_singleton|done].
  - rewrite lookup_insert_ne by done. intros Hv.
    destruct (IH Hv) as [?|(key' & Hin & Hk & ->)]; [by left|].
    right. exists key'. split; [apply elem_of_app; by left|done].
Qed.

(** X17. [read] adds to the container and never removes: the group name is
    kept and the store is only entered and left; an entry whose key no child
    key of the group converts to is kept as it was; the key of every child
    key is contained afterwards; and every entry of the result was in the
    container before or is the store's value of a child key. *)
Theorem read_merges (c : QSettingsContainer.t T_Key QVariant) (settings : QSettings) :
  let inside := beginGroup settings (m_group c) in
  let c' := (read toKey c settings).1 in
  getGroupName c' = getGroupName c /\
  (read toKey c settings).2 = endGroup inside /\
  (forall k, (forall key, key ∈ childKeys inside -> toKey key <> k) ->
     m_data c' !! k = m_data c !! k) /\
  (forall key, key ∈ childKeys inside -> contains c' (toKey key) = true) /\
  (forall k v, m_data c' !! k = Some v ->
     m_data c !! k = Some v \/
     exists key, key ∈ childKeys inside /\ toKey key = k /\
       v = QSettings_value inside key QVariant_null).
Proof.
  cbv zeta. unfold read. simpl.
  split; [done|]. split; [done|].
  split; [intros k Hmiss; by apply read_loop_miss|].
  split.
  - intros key Hin. unfold contains, QMap_contains. simpl.
    destruct (read_loop_contains
                (fun key => QSettings_value (beginGroup settings (m_group c)) key QVariant_null)
                (m_data c) _ key Hin) as [v Hv].
    by rewrite Hv.
  - intros k v. apply read_loop_origin.
Qed.

(** X18. When several child keys of the group convert to one container key,
    [read] keeps the value of the last of them: for child keys
    [keys1 ++ key :: keys2] with no key of [keys2] converting like [key],
    the entry of [toKey key] is the store's value of [key]. When the
    conversion tells all child keys apart, every child key is read to its
    own entry. *)
Theorem read_last_child_key_wins
    (c : QSettingsContainer.t T_Key QVariant) (settings : QSettings) :
  let inside := beginGroup settings (m_group c) in
  let c' := (read toKey c settings).1 in
  (forall keys1 key keys2,
     childKeys inside = keys1 ++ key :: keys2 ->
     (forall key', key' ∈ keys2 -> toKey key' <> toKey key) ->
     m_data c' !! toKey key = Some (QSettings_value inside key QVariant_null)) /\
  ((forall key key', key ∈ childKeys inside -> key' ∈ childKeys inside ->
      toKey key = toKey key' -> key = key') ->
   forall key, key ∈ childKeys inside ->
     m_data c' !! toKey key = Some (QSettings_value inside key QVariant_null)).
Proof.
  cbv zeta. unfold read. simpl.
  split.
  - intros keys1 key keys2 -> Hlast. by apply read_loop_last.
  - intros Hinj key Hin. apply read_loop_hit; [by exists key|].
    intros key' Hin' Hk. by rewrite (Hinj key' key Hin' Hin Hk).
Qed.

End SettingsReadWrite.

Section SettingsWrite.

Import QSettingsContainer QSettingsContainerRest.

Context {T_Key : Type} `{Countable T_Key} {QVariant : Type}.
Context {Store : QSettingsOps QVariant} {Laws : QSettingsLaws QVariant}.
Variable fromKey : T_Key -> string.
Variable key_le : T_Key -> T_Key -> Prop.
Context `{forall a b, Decision (key_le a b)}.

Lemma QMap_entries_elem (m : gmap T_Key QVariant) (k : T_Key) (v : QVariant) :
  (k, v) ∈ QMap_entries key_le m <-> m !! k = Some v.
Proof.
  unfold QMap_entries. rewrite merge_sort_Permutation. apply elem_of_map_to_list.
Qed.

Lemma QMap_entries_NoDup (m : gmap T_Key QVariant) : NoDup (QMap_entries key_le m).*1.
Proof.
  unfold QMap_entries. rewrite merge_sort_Permutation. apply NoDup_fst_map_to_list.
Qed.

Lemma write_loop_in_group (g : string) (st : QSettings) (l : list (T_Key * QVariant)) :
  in_group g st -> in_group g (write_loop fromKey st l).
Proof.
  revert st. induction l as [|e l IH]; intros st Hin; [done|].
  simpl. apply IH. by constructor.
Qed.

Lemma write_loop_value_miss (st : QSettings) (l : list (T_Key * QVariant))
    (key : string) (d : QVariant) :
  (forall e, e ∈ l -> fromKey e.1 <> key) ->
  QSettings_value (write_loop fromKey st l) key d = QSettings_value st key d.
Proof.
  revert st. induction l as [|e l IH]; intros st Hmiss; [done|].
  simpl. rewrite IH by (intros e' He'; apply Hmiss; by right).
  apply value_setValue_ne. apply Hmiss. by left.
Qed.

Lemma write_loop_value_hit (st : QSettings) (l : list (T_Key * QVariant))
    (k : T_Key) (v d : QVariant) :
  NoDup (fromKey <$> l.*1) ->
  (forall e, e ∈ l -> child_key (fromKey e.1) = true) ->
  (k, v) ∈ l ->
  QSettings_value (write_loop fromKey st l) (fromKey k) d = v.
Proof.
  revert st. induction l as [|e l IH]; intros st Hnd Hchild Hin.
  - by apply elem_of_nil in Hin.
  - simpl in Hnd. apply NoDup_cons in Hnd as [Hfresh Hnd]. simpl.
    apply elem_of_cons in Hin as [<-|Hin].
    + rewrite write_loop_value_miss.
      * apply value_setValue_eq. apply (Hchild (k, v)). by left.
      * intros e' He' Heq. apply Hfresh. simpl. rewrite <- Heq.
        apply list_elem_of_fmap_2, list_elem_of_fmap_2, He'.
    + apply IH; [done| |done]. intros e' He'. apply Hchild. by right.
Qed.

Lemma write_loop_childKeys (st : QSettings) (l : list (T_Key * QVariant)) (key : string) :
  (forall e, e ∈ l -> child_key (fromKey e.1) = true) ->
  key ∈ childKeys (write_loop fromKey st l)
  <-> key ∈ (fromKey <$> l.*1) \/ key ∈ childKeys st.
Proof.
  revert st. induction l as [|e l IH]; intros st Hchild.
  - simpl. split; [by right|]. intros [Hin|Hin]; [by apply elem_of_nil in Hin|done].
  - simpl. rewrite IH by (intros e' He'; apply Hchild; by right).
    rewrite childKeys_setValue by (apply Hchild; by left).
    rewrite elem_of_cons. tauto.
Qed.

(** X19. [write] adds to the store and never removes: for a store keeping
    the laws of [QSettings] and a container whose keys convert to child
    keys, every child key of the group before [write] is one after it, a
    key no container key converts to keeps its value, and every child key
    after [write] was one before or is the conversion of a container key. *)
Theorem write_keeps_other_entries
    (c : QSettingsContainer.t T_Key QVariant) (settings : QSettings) :
  (forall k, is_Some (m_data c !! k) -> child_key (fromKey k) = true) ->
  let before := beginGroup settings (m_group c) in
  let after := beginGroup (write fromKey key_le c settings) (m_group c) in
  (forall key, key ∈ childKeys before -> key ∈ childKeys after) /\
  (forall key d, (forall k, is_Some (m_data c !! k) -> fromKey k <> key) ->
     QSettings_value after key d = QSettings_value before key d) /\
  (forall key, key ∈ childKeys after ->
     key ∈ childKeys before \/ exists k, is_Some (m_data c !! k) /\ key = fromKey k).
Proof.
  intros Hkeys before after.
  assert (Hchild : forall e, e ∈ QMap_entries key_le (m_data c) ->
                     child_key (fromKey e.1) = true).
  { intros [k' v'] He. apply QMap_entries_elem in He. apply Hkeys. by eexists. }
  assert (Hafter : after = write_loop fromKey before (QMap_entries key_le (m_data c))).
  { subst after before. unfold write.
    apply beginGroup_endGroup, write_loop_in_group. constructor. }
  rewrite Hafter. split; [|split].
  - intros key Hin. apply write_loop_childKeys; [done|]. by right.
  - intros key d Hmiss. apply write_loop_value_miss.
    intros [k' v'] He. apply QMap_entries_elem in He. apply Hmiss. by eexists.
  - intros key Hin. apply write_loop_childKeys in Hin; [|done].
    destruct Hin as [Hin|Hin]; [|by left].
    right. apply list_elem_of_fmap in Hin as (k' & -> & Hk').
    apply list_elem_of_fmap in Hk' as ([k'' v''] & -> & He).
    apply QMap_entries_elem in He. exists k''. split; [by eexists|done].
Qed.

End SettingsWrite.

Section SettingsRoundTrip.

Import QSettingsContainer QSettingsContainerRest.

Context {T_Key : Type} `{Countable T_Key} {QVariant : Type}.
Context {Store : QSettingsOps QVariant} {Laws : QSettingsLaws QVariant}.
Variable toKey : string -> T_Key.
Variable fromKey : T_Key -> string.
Variable key_le : T_Key -> T_Key -> Prop.
Context `{forall a b, Decision (key_le a b)}.

(** X20. What [write] stores, [read] reads back. For a store keeping the
    laws of [QSettings], take a container whose keys convert to child keys
    and back ([toKey (fromKey k) = k]) and a group whose earlier child keys
    are in the converted form ([fromKey (toKey key) = key]): after [write]
    to the store, [read] from the written store into any container of the
    same group name holds every entry of the written container. *)
Theorem write_then_read
    (c c0 : QSettingsContainer.t T_Key QVariant) (settings : QSettings) :
  m_group c0 = m_group c ->
  (forall k, is_Some (m_data c !! k) ->
     toKey (fromKey k) = k /\ child_key (fromKey k) = true) ->
  (forall key, key ∈ childKeys (beginGroup settings (m_group c)) ->
     fromKey (toKey key) = key) ->
  let c' := (read toKey c0 (write fromKey key_le c settings)).1 in
  forall k v, m_data c !! k = Some v ->
    m_data c' !! k = Some v /\ contains c' k = true.
Proof.
  intros Hgroup Hkeys Hcanon c' k v Hkv.
  assert (Hchild : forall e, e ∈ QMap_entries key_le (m_data c) ->
                     child_key (fromKey e.1) = true).
  { intros [k' v'] He. apply QMap_entries_elem in He. apply Hkeys. by eexists. }
  assert (Hback : forall e, e ∈ QMap_entries key_le (m_data c) -> toKey (fromKey e.1) = e.1).
  { intros [k' v'] He. apply QMap_entries_elem in He. apply Hkeys. by eexists. }
  assert (Hnd : NoDup (fromKey <$> (QMap_entries key_le (m_data c)).*1)).
  { apply NoDup_fmap_2_strong; [|apply QMap_entries_NoDup].
    intros k1 k2 Hk1 Hk2 Heq.
    apply list_elem_of_fmap in Hk1 as (e1 & -> & He1).
    apply list_elem_of_fmap in Hk2 as (e2 & -> & He2).
    rewrite <- (Hback e1 He1), <- (Hback e2 He2). by rewrite Heq. }
  assert (Hdata : m_data c' !! k = Some v).
  { subst c'. unfold read, write. simpl. rewrite Hgroup.
    rewrite beginGroup_endGroup by (apply write_loop_in_group; constructor).
    apply read_loop_hit.
    - exists (fromKey k). split; [|apply Hkeys; by eexists].
      apply write_loop_childKeys; [done|]. left.
      apply list_elem_of_fmap. exists k. split; [done|].
      apply list_elem_of_fmap. exists (k, v). split; [done|].
      by apply QMap_entries_elem.
    - intros key Hin Hto.
      assert (Hkey : key = fromKey k).
      { apply write_loop_childKeys in Hin; [|done]. destruct Hin as [Hin|Hin].
        - apply list_elem_of_fmap in Hin as (k' & -> & Hk').
          apply list_elem_of_fmap in Hk' as (e & -> & He).
          rewrite (Hback e He) in Hto. by rewrite Hto.
        - rewrite <- (Hcanon key Hin). by rewrite Hto. }
      rewrite Hkey. apply write_loop_value_hit; [done..|].
      by apply QMap_entries_elem. }
  split; [done|]. unfold contains, QMap_contains. by rewrite Hdata.
Qed.

End SettingsRoundTrip.

(** ** The concrete store keeps the laws *)

Lemma Registry_keys_of_elem (st : Registry.store) (key : string) :
  key ∈ Registry.keys_of st
  <-> is_Some (Registry.entries st !! (Registry.groups st, key)).
Proof.
  unfold Registry.keys_of. rewrite list_elem_of_omap. split.
  - intros ([[g k] v] & Hin & Hsome). simpl in Hsome.
    destruct (decide (g = Registry.groups st)) as [->|]; [|done].
    injection Hsome as ->. apply elem_of_map_to_list in Hin. by eexists.
  - intros [v Hv]. exists ((Registry.groups st, key), v).
    split; [by apply elem_of_map_to_list|]. simpl. by rewrite decide_True.
Qed.

Lemma Registry_in_group (g : string) (st : Registry.store) :
  @in_group Z Registry.ops g st -> exists rest, Registry.groups st = g :: rest.
Proof. induction 1 as [st|st key v _ IH]; [by eexists|done]. Qed.

Lemma Registry_laws : @QSettingsLaws Z Registry.ops.
Proof.
  split.
  - intros st key v d _. simpl. by rewrite lookup_insert_eq.
  - intros st key key' v d Hne. simpl. rewrite lookup_insert_ne; [done|congruence].
  - intros st key v key' _. simpl. rewrite !Registry_keys_of_elem. simpl.
    destruct (decide (key' = key)) as [->|Hne].
    + rewrite lookup_insert_eq. split; [by left|by eexists].
    + rewrite lookup_insert_ne by congruence. tauto.
  - intros g st Hin. apply Registry_in_group in Hin as [rest Hg].
    destruct st as [groups entries]. simpl in *. by rewrite Hg.
Qed.

(** ** The settings container on concrete stores *)

Section SettingsExamples.

Import QSettingsContainer QSettingsContainerRest.

#[local] Existing Instance Registry.ops.

(** A container of group ["ui"] over integer keys holding 10 under key 1;
    one over string keys holding a width and a height; a store holding a
    width in group ["ui"]. *)
#[local] Abbreviation ui := (setValue (ctor (T_Key := Z) (QVariant := Z) "ui") 1 10).

#[local] Abbreviation window :=
  (setValue (setValue (ctor (T_Key := string) (QVariant := Z) "ui") "width" 640)
            "height" 480).

#[local] Abbreviation stored :=
  (endGroup (QSettings_setValue (@beginGroup Z Registry.ops Registry.empty "ui") "width" 800)).

(** A store whose group ["ui"] holds four child keys, two of them no
    numbers and two writing the number 7; and one whose group holds a
    depth. *)
#[local] Abbreviation stored_numbers :=
  (endGroup
     (QSettings_setValue
        (QSettings_setValue
           (QSettings_setValue
              (QSettings_setValue (@beginGroup Z Registry.ops Registry.empty "ui") "7" 70)
              "07" 71)
           "abc" 1)
        "xyz" 2)).

#[local] Abbreviation stored_depth :=
  (endGroup (QSettings_setValue (@beginGroup Z Registry.ops Registry.empty "ui") "depth" 8)).

#[local] Abbreviation string_le := (fun a b : string => String.leb a b = true).
#[local] Abbreviation string_le_dec :=
  (fun a b : string => decide (String.leb a b = true)).

Lemma setValue_other_keys_witness :
  contains (setValue ui 2 5) 1 = contains ui 1 /\
  value id id (setValue ui 2 5) 1 0 = value id id ui 1 0.
Proof.
  destruct (setValue_other_keys id id ui 2 1 5 0) as (Hcontains & Hvalue & _); [lia|].
  split; [exact Hcontains|exact Hvalue].
Defined.

Lemma setValue_overwrites_and_commutes_witness :
  setValue (setValue ui 1 3) 1 4 = setValue ui 1 4 /\
  setValue (setValue ui 1 3) 2 4 = setValue (setValue ui 2 4) 1 3 /\
  setValue ui 1 10 = ui.
Proof.
  destruct (setValue_overwrites_and_commutes ui 1 2 3 4) as (Hover & Hcomm & _).
  destruct (setValue_overwrites_and_commutes ui 1 1 10 10) as (_ & _ & Hsame).
  split; [exact Hover|]. split; [apply Hcomm; lia|]. apply Hsame. reflexivity.
Defined.

Lemma enum_overloads_share_entries_witness :
  let underlying := fun e : bool => if e then 1 else 0 in
  contains_enum underlying (setValue_enum underlying ui true 7) true = true /\
  value id id (setValue_enum underlying ui true 7) 1 0 = 7 /\
  contains_enum underlying (setValue_enum underlying ui true 7) false
  = contains_enum underlying ui false.
Proof.
  intros underlying.
  destruct (enum_overloads_share_entries id id underlying ui true true 7 0)
    as [Hsame _].
  destruct (enum_overloads_share_entries id id underlying ui true false 7 0)
    as [_ Hother].
  destruct Hsame as (Hcontains & _ & Hvalue); [reflexivity|].
  destruct Hother as (Hframe & _); [simpl; lia|].
  split; [exact Hcontains|]. split; [exact Hvalue|exact Hframe].
Defined.

Lemma read_merges_witness :
  contains (read id window stored).1 "width" = true /\
  m_data (read id window stored).1 !! "height" = m_data window !! "height".
Proof.
  destruct (read_merges (Store := Registry.ops) id window stored)
    as (_ & _ & Hkeep & Hcontains & _).
  split.
  - apply Hcontains. vm_compute. apply list_elem_of_here.
  - apply Hkeep. intros key Hin. vm_compute in Hin.
    apply list_elem_of_singleton in Hin. by subst key.
Defined.

Lemma read_last_child_key_wins_witness :
  childKeys (beginGroup stored_numbers "ui") = ["7"; "abc"; "xyz"; "07"] /\
  Decimal.toInt "abc" = Decimal.toInt "xyz" /\
  Decimal.toInt "7" = Decimal.toInt "07" /\
  m_data (read Decimal.toInt ui stored_numbers).1 !! 0 = Some 2 /\
  m_data (read Decimal.toInt ui stored_numbers).1 !! 7 = Some 71 /\
  m_data (read id window stored).1 !! "width" = Some 800.
Proof.
  destruct (read_last_child_key_wins (Store := Registry.ops) Decimal.toInt ui stored_numbers)
    as [Hlast _].
  destruct (read_last_child_key_wins (Store := Registry.ops) id window stored)
    as [_ Hapart].
  split; [reflexivity|]. split; [reflexivity|]. split; [reflexivity|].
  split; [|split].
  - apply (Hlast ["7"; "abc"] "xyz" ["07"]); [reflexivity|].
    intros key Hin. apply list_elem_of_singleton in Hin. subst key. by vm_compute.
  - apply (Hlast ["7"; "abc"; "xyz"] "07" []); [reflexivity|].
    intros key Hin. by apply elem_of_nil in Hin.
  - apply (Hapart ltac:(by intros key key' _ _ Heq) "width").
    vm_compute. apply list_elem_of_here.
Defined.

Lemma write_then_read_witness :
  let written := write (Store := Registry.ops) (H0 := string_le_dec) id string_le window Registry.empty in
  m_data (read id (ctor "ui") written).1 !! "width" = Some 640 /\
  contains (read id (ctor "ui") written).1 "width" = true.
Proof.
  intros written.
  apply (write_then_read (Store := Registry.ops) (Laws := Registry_laws)
           (H0 := string_le_dec) id id string_le window (ctor "ui") Registry.empty).
  - reflexivity.
  - intros k _. split; reflexivity.
  - intros key _. reflexivity.
  - reflexivity.
Defined.

Lemma write_keeps_other_entries_witness :
  let before := beginGroup stored_depth "ui" in
  let after :=
    beginGroup (write (Store := Registry.ops) (H0 := string_le_dec) id string_le
                  window stored_depth) "ui" in
  m_data window !! "width" = Some 640 /\
  QSettings_value before "depth" 0 = 8 /\
  QSettings_value after "depth" 0 = 8 /\
  "depth" ∈ childKeys after /\
  (forall key, key ∈ childKeys after ->
     key = "depth" \/ exists k, is_Some (m_data window !! k) /\ key = k).
Proof.
  intros before after.
  destruct (write_keeps_other_entries (Store := Registry.ops) (Laws := Registry_laws)
              (H0 := string_le_dec) id string_le window stored_depth)
    as (Hkeys & Hvalue & Horigin).
  - intros k _. reflexivity.
  - split; [reflexivity|]. split; [reflexivity|]. split; [|split].
    + transitivity (QSettings_value before "depth" 0); [|reflexivity].
      apply (Hvalue "depth" 0). intros k [v Hv] Heq. unfold id in Heq. subst k.
      by vm_compute in Hv.
    + apply Hkeys. vm_compute. apply list_elem_of_here.
    + intros key Hin. destruct (Horigin key Hin) as [Hbefore|Hnew]; [left|by right].
      vm_compute in Hbefore. by apply list_elem_of_singleton in Hbefore.
Defined.

End SettingsExamples.
